(** * coc.nvim file system watcher: [src/core/fileSystemWatcher.ts]

    A shallow embedding of the two classes of the file,
    [FileSystemWatcherManager] (one watchman client per workspace root)
    and [FileSystemWatcher] (glob-scoped create/change/delete/rename
    events), together with the properties its specification states.

    - Part 1, [Section Reconcile]: the subscription callback [onChange] of
      [FileSystemWatcher.listen] as a pure function from a change batch to
      the sequence of [fire] calls it performs.
    - Part 2: the objects and their mutable state.  The [async] method
      [createClient] is cut at its single [await] into a synchronous
      prefix and two continuations (fulfilled / rejected); the promise the
      external service still owes is an entry of [pending]. *)

From stdpp Require Import gmap strings list fin_maps.
From Stdlib Require Import NArith.

(** ** Part 1: change batches and the reconciliation callback *)

(** Modelled from the spec: the declaration of [FileChange] and of its
    items lives in [./watchman], outside [fileSystemWatcher.ts].
    The data model of the spec gives a record
    [{ relativeName, entryType: file|dir|other, exists, isNew, size,
    modTimeMs }]; the field names below are the ones [fileSystemWatcher.ts]
    reads ([name], [type], [exists], [new], [size], [mtime_ms]).  [size] and
    [mtime_ms] are unsigned integers, so JavaScript [==] on them is [N.eqb]. *)
Inductive EntryType := TFile | TDir | TOther.

Record FileChangeItem := {
  name : string;
  type : EntryType;
  exists_ : bool;
  new : bool;
  size : N;
  mtime_ms : N
}.

Record FileChange := {
  root : string;
  files : list FileChangeItem
}.

(** [f.type == 'f'] *)
Definition is_f (t : EntryType) : bool :=
  match t with TFile => true | _ => false end.

(** One call of [fire] on one of the four emitters of a watcher. *)
Inductive Fired :=
| DidCreate (uri : string)
| DidChange (uri : string)
| DidDelete (uri : string)
| DidRename (oldUri newUri : string).

Global Instance Fired_eq_dec : EqDecision Fired.
Proof. solve_decision. Defined.

(** The immutable part of a [FileSystemWatcher]: its constructor
    arguments, which [listen] destructures before building [onChange]. *)
Record WatcherConfig := {
  globPattern : string;
  ignoreCreateEvents : bool;
  ignoreChangeEvents : bool;
  ignoreDeleteEvents : bool
}.

(** Modelled from the spec: [splitArray] is imported from [../util/array],
    outside [fileSystemWatcher.ts].  The spec describes its use as an
    order-preserving partition of the list into the records that satisfy
    the predicate and the records that do not. *)
Fixpoint splitArray {A} (array : list A) (fn : A → bool) : list A * list A :=
  match array with
  | [] => ([], [])
  | item :: rest =>
      let '(yes, no) := splitArray rest fn in
      if fn item then (item :: yes, no) else (yes, item :: no)
  end.

(** The external collaborators of the callback:
    [minimatch(name, pattern, { dot: true })] and
    [URI.file(path.join(root, name))]. *)
Class Collaborators := {
  minimatch : string → string → bool;
  file_uri : string → string → string
}.

Section Reconcile.
Context {collab : Collaborators}.

(** The predicate of [files.filter(...)], line 142. *)
Definition keep (glob : string) (f : FileChangeItem) : bool :=
  is_f (type f) && minimatch (name f) glob.

(** The predicate of [newFiles.find(...)], line 171. *)
Definition same_stamp (oldFile o : FileChangeItem) : bool :=
  (size o =? size oldFile)%N && (mtime_ms o =? mtime_ms oldFile)%N.

(** The loop over the kept records, lines 143-154. *)
Definition fire_records (w : WatcherConfig) (root : string)
    (files : list FileChangeItem) : list Fired :=
  flat_map (fun file =>
    let uri := file_uri root (name file) in
    if negb (exists_ file) then
      if negb (ignoreDeleteEvents w) then [DidDelete uri] else []
    else if new file then
      if negb (ignoreCreateEvents w) then [DidCreate uri] else []
    else
      if negb (ignoreChangeEvents w) then [DidChange uri] else []) files.

(** "file rename", lines 156-165: [files.length == 2 &&
    !files[0].exists && files[1].exists], then the test on the sizes. *)
Definition fire_file_rename (root : string) (files : list FileChangeItem)
  : list Fired :=
  match files with
  | [oldFile; newFile] =>
      if negb (exists_ oldFile) && exists_ newFile then
        if (size oldFile =? size newFile)%N then
          [DidRename (file_uri root (name oldFile))
                     (file_uri root (name newFile))]
        else []
      else []
  | _ => []
  end.

(** "detect folder rename", lines 167-180. *)
Definition fire_folder_rename (root : string) (files : list FileChangeItem)
  : list Fired :=
  if Nat.leb 2 (length files) then
    let '(oldFiles, newFiles) :=
      splitArray files (fun o => negb (exists_ o)) in
    if Nat.eqb (length oldFiles) (length newFiles) then
      flat_map (fun oldFile =>
        match List.find (same_stamp oldFile) newFiles with
        | Some newFile =>
            [DidRename (file_uri root (name oldFile))
                       (file_uri root (name newFile))]
        | None => []
        end) oldFiles
    else []
  else [].

(** [onChange], lines 140-181.  The result lists the [fire] calls in
    the order in which the callback performs them. *)
Definition onChange (w : WatcherConfig) (change : FileChange) : list Fired :=
  let root := root change in
  let files := List.filter (keep (globPattern w)) (files change) in
  fire_records w root files
  ++ fire_file_rename root files
  ++ fire_folder_rename root files.

End Reconcile.

(** *** Reading the result of [onChange] *)

Definition is_rename (ev : Fired) : bool :=
  match ev with DidRename _ _ => true | _ => false end.

(** The rename events of a run, in order. *)
Definition renames (evs : list Fired) : list Fired := List.filter is_rename evs.

(** The create/change/delete events of a run, in order. *)
Definition record_events (evs : list Fired) : list Fired :=
  List.filter (fun ev => negb (is_rename ev)) evs.

(** How often [uri] is the new side of a rename in a run. *)
Definition new_side_uses (uri : string) (evs : list Fired) : nat :=
  length (List.filter
            (fun ev => match ev with
                       | DidRename _ n => bool_decide (n = uri)
                       | _ => false
                       end) evs).

Section ReconcileSpec.
Context {collab : Collaborators}.

(** Step 2 of the reconciliation routine as the specification words it:
    the event a single kept record stands for, or none when the
    corresponding ignore flag is set. *)
Definition classify (w : WatcherConfig) (root : string) (f : FileChangeItem)
  : option Fired :=
  match exists_ f, new f with
  | false, _ => if ignoreDeleteEvents w then None
                else Some (DidDelete (file_uri root (name f)))
  | true, true => if ignoreCreateEvents w then None
                  else Some (DidCreate (file_uri root (name f)))
  | true, false => if ignoreChangeEvents w then None
                   else Some (DidChange (file_uri root (name f)))
  end.

(** Step 3 as the specification words it. *)
Definition pairwise_rename (root : string) (kept : list FileChangeItem)
  : list Fired :=
  match kept with
  | [a; b] =>
      if bool_decide (exists_ a = false ∧ exists_ b = true ∧ size a = size b)
      then [DidRename (file_uri root (name a)) (file_uri root (name b))]
      else []
  | _ => []
  end.

(** [a] is the first record of [appeared] carrying the size and the
    modification time of [v]. *)
Definition first_with_stamp (appeared : list FileChangeItem)
    (v a : FileChangeItem) : Prop :=
  ∃ before after,
    appeared = before ++ a :: after
    ∧ size a = size v ∧ mtime_ms a = mtime_ms v
    ∧ ∀ o, o ∈ before → ¬ (size o = size v ∧ mtime_ms o = mtime_ms v).

(** The partner of a vanished record: the first appeared record with
    its stamp, or none when no appeared record carries it. *)
Definition partner_of (appeared : list FileChangeItem)
    (v : FileChangeItem) (p : option FileChangeItem) : Prop :=
  match p with
  | Some a => first_with_stamp appeared v a
  | None => ∀ o, o ∈ appeared → ¬ (size o = size v ∧ mtime_ms o = mtime_ms v)
  end.

Definition rename_of (root : string)
    (vp : FileChangeItem * option FileChangeItem) : list Fired :=
  match vp.2 with
  | Some a => [DidRename (file_uri root (name vp.1)) (file_uri root (name a))]
  | None => []
  end.

(** Step 4 as the specification words it: every appeared record is
    handed out at most once ("the first not-yet-matched appeared
    record").  [take_first] returns the match together with the records
    that stay available. *)
Fixpoint take_first (v : FileChangeItem) (avail : list FileChangeItem)
  : option (FileChangeItem * list FileChangeItem) :=
  match avail with
  | [] => None
  | a :: rest =>
      if (size a =? size v)%N && (mtime_ms a =? mtime_ms v)%N
      then Some (a, rest)
      else match take_first v rest with
           | Some (m, rest') => Some (m, a :: rest')
           | None => None
           end
  end.

Fixpoint match_unused (root : string) (vanished avail : list FileChangeItem)
  : list Fired :=
  match vanished with
  | [] => []
  | v :: vs =>
      match take_first v avail with
      | Some (a, avail') =>
          DidRename (file_uri root (name v)) (file_uri root (name a))
          :: match_unused root vs avail'
      | None => match_unused root vs avail
      end
  end.

Definition batch_rename_spec (root : string) (kept : list FileChangeItem)
  : list Fired :=
  let vanished := List.filter (fun o => negb (exists_ o)) kept in
  let appeared := List.filter exists_ kept in
  if Nat.leb 2 (length kept) && Nat.eqb (length vanished) (length appeared)
  then match_unused root vanished appeared
  else [].

End ReconcileSpec.

(** *** Sample collaborators, to run the callback on concrete batches *)

(** A stand-in for [minimatch]: the pattern "**" accepts every name, any
    other pattern accepts only itself. *)
Definition sample_match (name pattern : string) : bool :=
  bool_decide (pattern = "**") || bool_decide (name = pattern).

(** A stand-in for [URI.file(path.join(root, name))]. *)
Definition sample_uri (root name : string) : string := root +:+ "/" +:+ name.

Definition sample : Collaborators :=
  {| minimatch := sample_match; file_uri := sample_uri |}.

Definition watch_all : WatcherConfig :=
  {| globPattern := "**"; ignoreCreateEvents := false;
     ignoreChangeEvents := false; ignoreDeleteEvents := false |}.

Definition gone (n : string) (sz mt : N) : FileChangeItem :=
  {| name := n; type := TFile; exists_ := false; new := false;
     size := sz; mtime_ms := mt |}.

Definition fresh_file (n : string) (sz mt : N) : FileChangeItem :=
  {| name := n; type := TFile; exists_ := true; new := true;
     size := sz; mtime_ms := mt |}.

(** ** Part 2: the objects and their state *)

(** *** Emitters

    [Emitter] comes from vscode-jsonrpc (through
    vscode-languageserver-protocol).  Its state is the optional callback
    list [_callbacks]: subscribing creates the list when it is missing and
    appends to it, [fire] calls every callback in order when the list
    exists, [dispose] drops the list. *)
Definition Emitter (L : Type) : Type := option (list L).

Definition emitter_listeners {L} (e : Emitter L) : list L := default [] e.

Definition emitter_on {L} (l : L) (e : Emitter L) : Emitter L :=
  Some (emitter_listeners e ++ [l]).

Definition emitter_dispose {L} (e : Emitter L) : Emitter L := None.

(** *** External handles and the effect trace *)

(** A watchman client, as handed out by [Watchman.createClient]. *)
Definition Watchman : Type := nat.

(** Everything the two classes do to the outside world, in order. *)
Inductive Effect :=
| CallCreateClient (watchmanPath root : string)
    (* Watchman.createClient(this.watchmanPath, root, this.channel) *)
| ClientDispose (client : Watchman)                 (* client.dispose() *)
| ClientSubscribe (client : Watchman) (watcher : nat) (glob : string)
    (* client.subscribe(globPattern, onChange) *)
| SubscriptionDispose (disposable : nat)            (* disposable.dispose() *)
| LoggerError (message : string)                    (* logger.error(e) *)
| ChannelAppendLine (channel line : string)         (* channel.appendLine(..) *)
| WaitResolved (waiter : nat) (root : string).
    (* the promise returned by waitClient(root) is resolved *)

Global Instance Effect_eq_dec : EqDecision Effect.
Proof. solve_decision. Defined.

(** *** FileSystemWatcher objects *)

Inductive Stream := OnCreate | OnChange | OnDelete | OnRename.

Record FileSystemWatcher := {
  config : WatcherConfig;
  _onDidCreate : Emitter nat;
  _onDidChange : Emitter nat;
  _onDidDelete : Emitter nat;
  _onDidRename : Emitter nat;
  fw_disposables : list nat;
  fw_disposed : bool
}.

(** [new FileSystemWatcher(globPattern, ignoreCreateEvents, ...)] *)
Definition new_FileSystemWatcher (cfg : WatcherConfig) : FileSystemWatcher :=
  {| config := cfg;
     _onDidCreate := None; _onDidChange := None;
     _onDidDelete := None; _onDidRename := None;
     fw_disposables := []; fw_disposed := false |}.

(** A consumer subscribes [listener] to one of the public events
    [onDidCreate], [onDidChange], [onDidDelete], [onDidRename]. *)
Definition fw_on (st : Stream) (listener : nat) (fw : FileSystemWatcher)
  : FileSystemWatcher :=
  match st with
  | OnCreate =>
      {| config := config fw;
         _onDidCreate := emitter_on listener (_onDidCreate fw);
         _onDidChange := _onDidChange fw; _onDidDelete := _onDidDelete fw;
         _onDidRename := _onDidRename fw;
         fw_disposables := fw_disposables fw; fw_disposed := fw_disposed fw |}
  | OnChange =>
      {| config := config fw;
         _onDidCreate := _onDidCreate fw;
         _onDidChange := emitter_on listener (_onDidChange fw);
         _onDidDelete := _onDidDelete fw; _onDidRename := _onDidRename fw;
         fw_disposables := fw_disposables fw; fw_disposed := fw_disposed fw |}
  | OnDelete =>
      {| config := config fw;
         _onDidCreate := _onDidCreate fw; _onDidChange := _onDidChange fw;
         _onDidDelete := emitter_on listener (_onDidDelete fw);
         _onDidRename := _onDidRename fw;
         fw_disposables := fw_disposables fw; fw_disposed := fw_disposed fw |}
  | OnRename =>
      {| config := config fw;
         _onDidCreate := _onDidCreate fw; _onDidChange := _onDidChange fw;
         _onDidDelete := _onDidDelete fw;
         _onDidRename := emitter_on listener (_onDidRename fw);
         fw_disposables := fw_disposables fw; fw_disposed := fw_disposed fw |}
  end.

(** The state change of [FileSystemWatcher.dispose] on the object itself,
    lines 189-196: the flag is set, [_onDidRename], [_onDidCreate] and
    [_onDidChange] are disposed, [disposeAll] empties [disposables].
    No statement of the method touches [_onDidDelete]. *)
Definition fw_dispose (fw : FileSystemWatcher) : FileSystemWatcher :=
  {| config := config fw;
     _onDidCreate := emitter_dispose (_onDidCreate fw);
     _onDidChange := emitter_dispose (_onDidChange fw);
     _onDidDelete := _onDidDelete fw;
     _onDidRename := emitter_dispose (_onDidRename fw);
     fw_disposables := [];
     fw_disposed := true |}.

(** [this.disposables.push(disposable)] *)
Definition fw_push (d : nat) (fw : FileSystemWatcher) : FileSystemWatcher :=
  {| config := config fw;
     _onDidCreate := _onDidCreate fw; _onDidChange := _onDidChange fw;
     _onDidDelete := _onDidDelete fw; _onDidRename := _onDidRename fw;
     fw_disposables := fw_disposables fw ++ [d];
     fw_disposed := fw_disposed fw |}.

(** The emitter an event is fired on. *)
Definition emitter_of (fw : FileSystemWatcher) (ev : Fired) : Emitter nat :=
  match ev with
  | DidCreate _ => _onDidCreate fw
  | DidChange _ => _onDidChange fw
  | DidDelete _ => _onDidDelete fw
  | DidRename _ _ => _onDidRename fw
  end.

Section Deliver.
Context {collab : Collaborators}.

(** What the listeners of a watcher observe when its subscription
    callback receives [change]: every [fire] of [onChange] reaches the
    callbacks its emitter holds at that moment, in order. *)
Definition deliver (fw : FileSystemWatcher) (change : FileChange)
  : list (nat * Fired) :=
  flat_map (fun ev => (fun l => (l, ev)) <$> emitter_listeners (emitter_of fw ev))
           (onChange (config fw) change).
End Deliver.

(** *** The manager, the static watcher set and the outside world

    One [FileSystemWatcherManager] together with the static set
    [FileSystemWatcherManager.watchers], the watcher objects it refers to,
    and what the environment still owes (unsettled promises).  Workspace
    folders are identified with their [URI.parse(folder.uri).fsPath].

    - [creatingRoots], [clientsMap], [channel], [_disposed], [watchmanPath]
      and [_onDidCreateClient] are the fields of the class; the listeners
      of [_onDidCreateClient] are the closures [waitClient] installs, kept
      as (waiter, root);
    - [clientsOrder] is the other half of the JavaScript [Map] behind
      [clientsMap]: its keys in the order in which they were first set,
      which is the order in which the map is iterated;
    - [disposables] counts the handlers of [onDidChangeWorkspaceFolders]
      held in [this.disposables];
    - [watchers] is the static set in insertion order, [heap] the watcher
      objects by reference (a watcher is its index);
    - [pending] lists the roots whose [Watchman.createClient] promise is
      not settled yet, [sub_pending] the unsettled [subscribe] promises;
    - [trace] is the sequence of effects so far, oldest first. *)
Record World := {
  creatingRoots : gset string;
  clientsMap : gmap string (option Watchman);
  clientsOrder : list string;
  disposables : nat;
  channel : option string;
  _disposed : bool;
  watchmanPath : option string;
  _onDidCreateClient : Emitter (nat * string);
  watchers : list nat;
  heap : list FileSystemWatcher;
  pending : list string;
  sub_pending : list (nat * Watchman);
  next_waiter : nat;
  trace : list Effect
}.

Definition set_creatingRoots (v : gset string) (s : World) : World :=
  {| creatingRoots := v; clientsMap := clientsMap s;
     clientsOrder := clientsOrder s; disposables := disposables s;
     channel := channel s; _disposed := _disposed s;
     watchmanPath := watchmanPath s;
     _onDidCreateClient := _onDidCreateClient s; watchers := watchers s;
     heap := heap s; pending := pending s; sub_pending := sub_pending s;
     next_waiter := next_waiter s; trace := trace s |}.

Definition set_clientsMap (v : gmap string (option Watchman)) (s : World) : World :=
  {| creatingRoots := creatingRoots s; clientsMap := v;
     clientsOrder := clientsOrder s; disposables := disposables s;
     channel := channel s; _disposed := _disposed s;
     watchmanPath := watchmanPath s;
     _onDidCreateClient := _onDidCreateClient s; watchers := watchers s;
     heap := heap s; pending := pending s; sub_pending := sub_pending s;
     next_waiter := next_waiter s; trace := trace s |}.

Definition set_clientsOrder (v : list string) (s : World) : World :=
  {| creatingRoots := creatingRoots s; clientsMap := clientsMap s;
     clientsOrder := v; disposables := disposables s; channel := channel s;
     _disposed := _disposed s; watchmanPath := watchmanPath s;
     _onDidCreateClient := _onDidCreateClient s; watchers := watchers s;
     heap := heap s; pending := pending s; sub_pending := sub_pending s;
     next_waiter := next_waiter s; trace := trace s |}.

Definition set_disposables (v : nat) (s : World) : World :=
  {| creatingRoots := creatingRoots s; clientsMap := clientsMap s;
     clientsOrder := clientsOrder s; disposables := v;
     channel := channel s; _disposed := _disposed s;
     watchmanPath := watchmanPath s;
     _onDidCreateClient := _onDidCreateClient s; watchers := watchers s;
     heap := heap s; pending := pending s; sub_pending := sub_pending s;
     next_waiter := next_waiter s; trace := trace s |}.

Definition set_channel (v : option string) (s : World) : World :=
  {| creatingRoots := creatingRoots s; clientsMap := clientsMap s;
     clientsOrder := clientsOrder s; disposables := disposables s;
     channel := v; _disposed := _disposed s;
     watchmanPath := watchmanPath s;
     _onDidCreateClient := _onDidCreateClient s; watchers := watchers s;
     heap := heap s; pending := pending s; sub_pending := sub_pending s;
     next_waiter := next_waiter s; trace := trace s |}.

Definition set_disposed (v : bool) (s : World) : World :=
  {| creatingRoots := creatingRoots s; clientsMap := clientsMap s;
     clientsOrder := clientsOrder s; disposables := disposables s;
     channel := channel s; _disposed := v; watchmanPath := watchmanPath s;
     _onDidCreateClient := _onDidCreateClient s; watchers := watchers s;
     heap := heap s; pending := pending s; sub_pending := sub_pending s;
     next_waiter := next_waiter s; trace := trace s |}.

Definition set_onDidCreateClient (v : Emitter (nat * string)) (s : World) : World :=
  {| creatingRoots := creatingRoots s; clientsMap := clientsMap s;
     clientsOrder := clientsOrder s; disposables := disposables s;
     channel := channel s; _disposed := _disposed s;
     watchmanPath := watchmanPath s; _onDidCreateClient := v;
     watchers := watchers s; heap := heap s; pending := pending s;
     sub_pending := sub_pending s; next_waiter := next_waiter s;
     trace := trace s |}.

Definition set_watchers (v : list nat) (s : World) : World :=
  {| creatingRoots := creatingRoots s; clientsMap := clientsMap s;
     clientsOrder := clientsOrder s; disposables := disposables s;
     channel := channel s; _disposed := _disposed s;
     watchmanPath := watchmanPath s;
     _onDidCreateClient := _onDidCreateClient s; watchers := v;
     heap := heap s; pending := pending s; sub_pending := sub_pending s;
     next_waiter := next_waiter s; trace := trace s |}.

Definition set_heap (v : list FileSystemWatcher) (s : World) : World :=
  {| creatingRoots := creatingRoots s; clientsMap := clientsMap s;
     clientsOrder := clientsOrder s; disposables := disposables s;
     channel := channel s; _disposed := _disposed s;
     watchmanPath := watchmanPath s;
     _onDidCreateClient := _onDidCreateClient s; watchers := watchers s;
     heap := v; pending := pending s; sub_pending := sub_pending s;
     next_waiter := next_waiter s; trace := trace s |}.

Definition set_pending (v : list string) (s : World) : World :=
  {| creatingRoots := creatingRoots s; clientsMap := clientsMap s;
     clientsOrder := clientsOrder s; disposables := disposables s;
     channel := channel s; _disposed := _disposed s;
     watchmanPath := watchmanPath s;
     _onDidCreateClient := _onDidCreateClient s; watchers := watchers s;
     heap := heap s; pending := v; sub_pending := sub_pending s;
     next_waiter := next_waiter s; trace := trace s |}.

Definition set_sub_pending (v : list (nat * Watchman)) (s : World) : World :=
  {| creatingRoots := creatingRoots s; clientsMap := clientsMap s;
     clientsOrder := clientsOrder s; disposables := disposables s;
     channel := channel s; _disposed := _disposed s;
     watchmanPath := watchmanPath s;
     _onDidCreateClient := _onDidCreateClient s; watchers := watchers s;
     heap := heap s; pending := pending s; sub_pending := v;
     next_waiter := next_waiter s; trace := trace s |}.

Definition set_next_waiter (v : nat) (s : World) : World :=
  {| creatingRoots := creatingRoots s; clientsMap := clientsMap s;
     clientsOrder := clientsOrder s; disposables := disposables s;
     channel := channel s; _disposed := _disposed s;
     watchmanPath := watchmanPath s;
     _onDidCreateClient := _onDidCreateClient s; watchers := watchers s;
     heap := heap s; pending := pending s; sub_pending := sub_pending s;
     next_waiter := v; trace := trace s |}.

Definition set_trace (v : list Effect) (s : World) : World :=
  {| creatingRoots := creatingRoots s; clientsMap := clientsMap s;
     clientsOrder := clientsOrder s; disposables := disposables s;
     channel := channel s; _disposed := _disposed s;
     watchmanPath := watchmanPath s;
     _onDidCreateClient := _onDidCreateClient s; watchers := watchers s;
     heap := heap s; pending := pending s; sub_pending := sub_pending s;
     next_waiter := next_waiter s; trace := v |}.

(** Append effects to the trace. *)
Definition emit (effs : list Effect) (s : World) : World :=
  set_trace (trace s ++ effs) s.

(** [new FileSystemWatcherManager(workspaceFolder, watchmanPath)], with
    no watcher created yet. *)
Definition init (path : option string) : World :=
  {| creatingRoots := ∅; clientsMap := ∅; clientsOrder := [];
     disposables := 0; channel := None;
     _disposed := false; watchmanPath := path; _onDidCreateClient := None;
     watchers := []; heap := []; pending := []; sub_pending := [];
     next_waiter := 0; trace := [] |}.

(** [clientsMap.has(root)] *)
Definition has_client (root : string) (s : World) : bool :=
  bool_decide (is_Some (clientsMap s !! root)).

(** The non-null values of [clientsMap.values()].  JavaScript iterates a
    [Map] in the order in which its keys were first set; [order] is that
    order. *)
Definition live_clients (order : list string)
    (m : gmap string (option Watchman)) : list Watchman :=
  omap (fun root => match m !! root with
                    | Some (Some client) => Some client
                    | _ => None
                    end) order.

(** The iteration order after [clientsMap.set(root, _)]: a new key goes to
    the end, a key that is present keeps its place. *)
Definition order_add (root : string) (order : list string) : list string :=
  if bool_decide (root ∈ order) then order else order ++ [root].

(** Settle one promise: drop its first entry. *)
Fixpoint remove_first {A} `{EqDecision A} (x : A) (l : list A) : list A :=
  match l with
  | [] => []
  | y :: l' => if decide (x = y) then l' else y :: remove_first x l'
  end.

(** [FileSystemWatcher.listen(client)] up to the call of
    [client.subscribe(globPattern, onChange)], lines 135-182; the [then]
    callback is [listen_subscribed] below. *)
Definition listen (w : nat) (client : Watchman) (s : World) : World :=
  match heap s !! w with
  | Some fw =>
      emit [ClientSubscribe client w (globPattern (config fw))]
           (set_sub_pending (sub_pending s ++ [(w, client)]) s)
  | None => s
  end.

(** The [then] callback of [listen], lines 182-186 (the assignment to the
    string field [subscribe] is left out). *)
Definition listen_subscribed (w : nat) (d : nat) (s : World) : World :=
  match heap s !! w with
  | Some fw =>
      if fw_disposed fw then emit [SubscriptionDispose d] s
      else set_heap (<[w := fw_push d fw]> (heap s)) s
  | None => s
  end.

(** Modelled from the spec: [disposeAll] is imported from [../util],
    outside [fileSystemWatcher.ts].  The spec has it release every held
    subscription; the list itself is emptied by the callers' models. *)
Definition disposeAll (ds : list nat) : list Effect :=
  SubscriptionDispose <$> reverse ds.

(** [FileSystemWatcher.dispose()], lines 189-196. *)
Definition watcher_dispose (w : nat) (s : World) : World :=
  match heap s !! w with
  | Some fw =>
      emit (disposeAll (fw_disposables fw))
        (set_heap (<[w := fw_dispose fw]> (heap s))
           (set_watchers (List.filter (fun x => negb (Nat.eqb x w)) (watchers s)) s))
  | None => s
  end.

(** The [catch] block of [createClient], lines 81-84. *)
Definition on_error (message : string) (s : World) : World :=
  emit (LoggerError message ::
        match channel s with
        | Some ch => [ChannelAppendLine ch ("Error on create watchman client:" +:+ message)]
        | None => []
        end) s.

(** [createClient(root)] up to its [await], lines 63-68. *)
Definition createClient (root : string) (s : World) : World :=
  match watchmanPath s with
  | None => s
  | Some path =>
      if bool_decide (root ∈ creatingRoots s) || has_client root s then s
      else
        emit [CallCreateClient path root]
          (set_pending (pending s ++ [root])
             (set_creatingRoots (creatingRoots s ∪ {[root]}) s))
  end.

(** [this._onDidCreateClient.fire(root)]: every listener installed by
    [waitClient] for this very root disposes itself and resolves its
    promise (lines 54-59); the others stay. *)
Definition fire_created (root : string) (s : World) : World :=
  match _onDidCreateClient s with
  | None => s
  | Some ls =>
      emit ((fun l => WaitResolved l.1 l.2)
              <$> List.filter (fun l => bool_decide (l.2 = root)) ls)
        (set_onDidCreateClient
           (Some (List.filter (fun l => negb (bool_decide (l.2 = root))) ls)) s)
  end.

(** [createClient(root)] after its [await] when the promise is fulfilled
    with [client], lines 69-80.  [client] may be [null] (the map is typed
    [Watchman | null] and line 75 tests it); on the disposed path line 71
    then throws a [TypeError], which the [catch] block handles. *)
Definition createClient_fulfilled (root : string) (client : option Watchman)
    (s : World) : World :=
  let s := set_creatingRoots (creatingRoots s ∖ {[root]}) s in
  if _disposed s then
    match client with
    | Some c => emit [ClientDispose c] s
    | None => on_error "Cannot read properties of null (reading 'dispose')" s
    end
  else
    let s := set_clientsMap (<[root := client]> (clientsMap s))
               (set_clientsOrder (order_add root (clientsOrder s)) s) in
    let s := match client with
             | Some c => foldl (fun s w => listen w c s) s (watchers s)
             | None => s
             end in
    fire_created root s.

(** [createClient(root)] after its [await] when the promise is rejected:
    control enters the [catch] block directly. *)
Definition createClient_rejected (root : string) (message : string)
    (s : World) : World :=
  on_error message s.

(** The handler [attach] registers on [onDidChangeWorkspaceFolders],
    lines 38-48. *)
Definition folders_changed (added removed : list string) (s : World) : World :=
  let s := foldl (fun s root => createClient root s) s added in
  foldl (fun s root =>
           match clientsMap s !! root with
           | Some (Some client) => emit [ClientDispose client] s
           | _ => s
           end) s removed.

(** [attach(channel)], lines 32-49; [folders] is the value of
    [workspaceFolder.workspaceFolders] at the call. *)
Definition attach (ch : string) (folders : list string) (s : World) : World :=
  let s := set_channel (Some ch) s in
  let s := foldl (fun s root => createClient root s) s folders in
  set_disposables (S (disposables s)) s.

(** [waitClient(root)], lines 51-61. *)
Definition waitClient (root : string) (s : World) : World :=
  let id := next_waiter s in
  let s := set_next_waiter (S id) s in
  if has_client root s then emit [WaitResolved id root] s
  else set_onDidCreateClient (emitter_on (id, root) (_onDidCreateClient s)) s.

(** [Set.prototype.add] *)
Definition set_add (x : nat) (l : list nat) : list nat :=
  if bool_decide (x ∈ l) then l else l ++ [x].

(** [createFileSystemWatcher(globPattern, ignoreCreateEvents, ...)],
    lines 87-98; the result is the index of the new object. *)
Definition createFileSystemWatcher (cfg : WatcherConfig) (s : World) : World :=
  let fileWatcher := length (heap s) in
  let s := set_heap (heap s ++ [new_FileSystemWatcher cfg]) s in
  let s := foldl (fun s client => listen fileWatcher client s) s
                 (live_clients (clientsOrder s) (clientsMap s)) in
  set_watchers (set_add fileWatcher (watchers s)) s.

(** [FileSystemWatcherManager.dispose()], lines 100-108. *)
Definition dispose (s : World) : World :=
  let s := set_disposed true s in
  let s := set_creatingRoots ∅ s in
  let s := set_onDidCreateClient (emitter_dispose (_onDidCreateClient s)) s in
  let s := emit (ClientDispose <$> live_clients (clientsOrder s) (clientsMap s)) s in
  set_disposables 0 s.

(** *** Runs

    What can happen to a manager, one step at a time: calls of the public
    methods, events of the collaborators, and promises being settled.  A
    promise can only be settled when it is owed. *)
Inductive Op :=
| Attach (channel : string) (workspaceFolders : list string)
| ChangeWorkspaceFolders (added removed : list string)
| ClientCreated (root : string) (client : option Watchman)
| ClientFailed (root : string) (message : string)
| WaitClient (root : string)
| CreateFileSystemWatcher (cfg : WatcherConfig)
| Subscribed (watcher : nat) (client : Watchman) (disposable : nat)
| SubscribeFailed (watcher : nat) (client : Watchman) (message : string)
| AddListener (watcher : nat) (stream : Stream) (listener : nat)
| DisposeWatcher (watcher : nat)
| Dispose.

Definition step (op : Op) (s : World) : World :=
  match op with
  | Attach ch folders => attach ch folders s
  | ChangeWorkspaceFolders added removed =>
      Nat.iter (disposables s) (folders_changed added removed) s
  | ClientCreated root client =>
      if bool_decide (root ∈ pending s)
      then createClient_fulfilled root client
             (set_pending (remove_first root (pending s)) s)
      else s
  | ClientFailed root message =>
      if bool_decide (root ∈ pending s)
      then createClient_rejected root message
             (set_pending (remove_first root (pending s)) s)
      else s
  | WaitClient root => waitClient root s
  | CreateFileSystemWatcher cfg => createFileSystemWatcher cfg s
  | Subscribed w client d =>
      if bool_decide ((w, client) ∈ sub_pending s)
      then listen_subscribed w d
             (set_sub_pending (remove_first (w, client) (sub_pending s)) s)
      else s
  | SubscribeFailed w client message =>
      (* the rejection ends in [logError()] *)
      if bool_decide ((w, client) ∈ sub_pending s)
      then emit [LoggerError message]
             (set_sub_pending (remove_first (w, client) (sub_pending s)) s)
      else s
  | AddListener w st listener =>
      match heap s !! w with
      | Some fw => set_heap (<[w := fw_on st listener fw]> (heap s)) s
      | None => s
      end
  | DisposeWatcher w => watcher_dispose w s
  | Dispose => dispose s
  end.

(** Run a sequence of steps, first one first. *)
Definition run (ops : list Op) (s : World) : World :=
  foldl (fun s op => step op s) s ops.

(** How often the external factory was asked for a client of [root]. *)
Definition factory_calls (root : string) (s : World) : nat :=
  length (List.filter (fun e => match e with
                                | CallCreateClient _ r => bool_decide (r = root)
                                | _ => false
                                end) (trace s)).

(** ** Part 3: vocabulary of the properties *)

(** Two files of the same size and modification time move together. *)
Definition twin_batch : FileChange :=
  {| root := "/r";
     files := [gone "x" 5 100; gone "y" 5 100;
               fresh_file "p" 5 100; fresh_file "q" 5 100] |}.

(** One file goes and one comes, of the same size but with different
    modification times. *)
Definition lone_pair_batch : FileChange :=
  {| root := "/r"; files := [gone "a.txt" 10 1; fresh_file "b.txt" 10 2] |}.

(** Effects that neither ask the factory for a client nor resolve a
    [waitClient] promise. *)
Definition inert (e : Effect) : bool :=
  match e with
  | CallCreateClient _ _ | WaitResolved _ _ => false
  | _ => true
  end.

(** [s'] differs from [s] at most in the watcher objects, the static
    set, the subscriptions and by inert effects. *)
Record frame (s s' : World) : Prop := {
  fr_creating : creatingRoots s' = creatingRoots s;
  fr_map : clientsMap s' = clientsMap s;
  fr_disposed : _disposed s' = _disposed s;
  fr_pending : pending s' = pending s;
  fr_path : watchmanPath s' = watchmanPath s;
  fr_emitter : _onDidCreateClient s' = _onDidCreateClient s;
  fr_trace : ∃ effs, trace s' = trace s ++ effs ∧ Forall (fun e => inert e = true) effs
}.

(** From [s] to [s'] no entry of the map is lost, the factory is only
    asked for roots without an entry, and a [waitClient] promise is only
    resolved for a root with an entry. *)
Definition admissible (s s' : World) (e : Effect) : Prop :=
  match e with
  | CallCreateClient _ r => clientsMap s !! r = None
  | WaitResolved _ r => is_Some (clientsMap s' !! r)
  | _ => True
  end.

Record evolves (s s' : World) : Prop := {
  ev_map : ∀ r, is_Some (clientsMap s !! r) → is_Some (clientsMap s' !! r);
  ev_trace : ∃ effs, trace s' = trace s ++ effs ∧ ∀ e, e ∈ effs → admissible s s' e
}.

(** The fields the invariants speak about. *)
Definition core (s : World)
  : gset string * gmap string (option Watchman) * bool * list string :=
  (creatingRoots s, clientsMap s, _disposed s, pending s).

(** A root with an unsettled request has no entry; while the manager is
    not disposed, no root has two unsettled requests and every one of them
    is marked as being created. *)
Definition Inv (s : World) : Prop :=
  (∀ r, r ∈ pending s → clientsMap s !! r = None)
  ∧ (_disposed s = false →
     NoDup (pending s) ∧ ∀ r, r ∈ pending s → r ∈ creatingRoots s).

(** [r] has no entry and cannot get one: the manager is disposed, or [r]
    is marked as being created although no request for it is unsettled. *)
Definition Stuck (r : string) (s : World) : Prop :=
  clientsMap s !! r = None
  ∧ (_disposed s = true ∨ (r ∈ creatingRoots s ∧ r ∉ pending s)).

Definition no_resolve (e : Effect) : bool :=
  match e with WaitResolved _ _ => false | _ => true end.

(** From [s] to [s'] no [waitClient] promise is resolved. *)
Definition quiet (s s' : World) : Prop :=
  ∃ effs, trace s' = trace s ++ effs ∧ Forall (fun e => no_resolve e = true) effs.

(** A watcher with one listener on [onDidDelete] and one on
    [onDidCreate], disposed. *)
Definition disposed_watcher_world : World :=
  run [CreateFileSystemWatcher watch_all;
       AddListener 0 OnDelete 7; AddListener 0 OnCreate 8;
       DisposeWatcher 0]
      (init (Some "watchman")).

(** A manager attached to the workspace folder "/r" whose request for a
    client failed. *)
Definition failed_world : World :=
  run [Attach "out" ["/r"]; ClientFailed "/r" "ENOENT"] (init (Some "watchman")).

(** The fingerprint the folder-rename block compares. *)
Definition stamp (f : FileChangeItem) : N * N := (size f, mtime_ms f).

(** The factory was asked for a root whenever a request for it is
    unsettled or the map has an entry for it; on a live manager it was
    asked at most once, and if once, the root is marked or mapped. *)
Definition Calls (s : World) : Prop :=
  (∀ r, r ∈ pending s ∨ is_Some (clientsMap s !! r) → 1 ≤ factory_calls r s)
  ∧ (_disposed s = false →
     ∀ r, factory_calls r s ≤ 1
          ∧ (factory_calls r s = 1 →
             r ∈ creatingRoots s ∨ is_Some (clientsMap s !! r))).

(** The static set holds each of its watchers once, and holds exactly
    the watchers that were created and not disposed; a disposed watcher
    keeps no subscription. *)
Definition Registry (s : World) : Prop :=
  NoDup (watchers s)
  ∧ (∀ w, w ∈ watchers s ↔
          ∃ fw, heap s !! w = Some fw ∧ fw_disposed fw = false)
  ∧ (∀ w fw, heap s !! w = Some fw → fw_disposed fw = true →
             fw_disposables fw = []).

(** The subscription [d] of watcher [w] is accounted for: it was
    disposed, or the watcher still keeps it. *)
Definition Held (d w : nat) (s : World) : Prop :=
  SubscriptionDispose d ∈ trace s
  ∨ ∃ fw, heap s !! w = Some fw ∧ d ∈ fw_disposables fw.

(** The glob pattern of watcher [w]. *)
Definition pattern_of (s : World) (w : nat) : string :=
  match heap s !! w with
  | Some fw => globPattern (config fw)
  | None => ""
  end.

(** The watcher side of the state: the static set and the objects. *)
Definition wside (s : World) : list nat * list FileSystemWatcher :=
  (watchers s, heap s).

(** From [s] to [s'] only effects accepted by [p] are added. *)
Definition adds_only (p : Effect → bool) (s s' : World) : Prop :=
  ∃ effs, trace s' = trace s ++ effs ∧ Forall (fun e => p e = true) effs.

Definition no_subscribe (e : Effect) : bool :=
  match e with ClientSubscribe _ _ _ => false | _ => true end.

(** Every subscription made so far went to a client that is stored in
    the map, and was made with the glob pattern of the subscribing
    watcher. *)
Definition Subscriptions (s : World) : Prop :=
  ∀ c w g, ClientSubscribe c w g ∈ trace s →
    (∃ r, clientsMap s !! r = Some (Some c))
    ∧ (∃ fw, heap s !! w = Some fw ∧ globPattern (config fw) = g).

(** The iteration order of the map lists every mapped root, and only
    those, once. *)
Definition Keys (s : World) : Prop :=
  NoDup (clientsOrder s)
  ∧ ∀ r, r ∈ clientsOrder s ↔ is_Some (clientsMap s !! r).

(** What [waitClient] works with: the create-client emitter and the
    counter that names the promises. *)
Definition waiters (s : World) : Emitter (nat * string) * nat :=
  (_onDidCreateClient s, next_waiter s).

(** The promise [id] of a [waitClient(r)] call is resolved, or the map has
    no entry for [r] yet and either the manager is disposed or the
    listener of the promise is installed. *)
Definition Waiting (id : nat) (r : string) (s : World) : Prop :=
  WaitResolved id r ∈ trace s
  ∨ ((clientsMap s !! r) = None
     ∧ (_disposed s = true
        ∨ (id, r) ∈ emitter_listeners (_onDidCreateClient s))).

(** The promises resolved or waiting so far were named before the
    counter reached its present value. *)
Definition Fresh (s : World) : Prop :=
  (∀ id r, WaitResolved id r ∈ trace s → id < next_waiter s)
  ∧ (∀ id r, (id, r) ∈ emitter_listeners (_onDidCreateClient s) →
       id < next_waiter s).

(** The watcher object [w] is disposed and its create, change and rename
    emitters hold no callback list. *)
Definition Silenced (w : nat) (s : World) : Prop :=
  ∃ fw, heap s !! w = Some fw
        ∧ fw_disposed fw = true
        ∧ _onDidCreate fw = None ∧ _onDidChange fw = None
        ∧ _onDidRename fw = None.

(** The step subscribes a listener to the create, change or rename event
    of watcher [w]. *)
Definition resubscribes (w : nat) (op : Op) : bool :=
  match op with
  | AddListener w' OnDelete _ => false
  | AddListener w' _ _ => Nat.eqb w' w
  | _ => false
  end.

(** * Properties *)

(** ** The reconciliation callback *)

Section ReconcileFacts.
Context {collab : Collaborators}.

Lemma splitArray_filter {A} (fn : A → bool) (l : list A) :
  splitArray l fn = (List.filter fn l, List.filter (fun x => negb (fn x)) l).
Proof.
  induction l as [|x l IH]; simpl; [done|].
  rewrite IH. by destruct (fn x).
Qed.

Lemma renames_app (l1 l2 : list Fired) :
  renames (l1 ++ l2) = renames l1 ++ renames l2.
Proof. apply List.filter_app. Qed.

Lemma record_events_app (l1 l2 : list Fired) :
  record_events (l1 ++ l2) = record_events l1 ++ record_events l2.
Proof. apply List.filter_app. Qed.

Lemma fire_records_classify w root (l : list FileChangeItem) :
  fire_records w root l = omap (classify w root) l.
Proof.
  induction l as [|f l IH]; [done|].
  simpl. rewrite IH. unfold classify, omap.
  destruct (exists_ f), (new f), (ignoreDeleteEvents w),
    (ignoreCreateEvents w), (ignoreChangeEvents w); reflexivity.
Qed.

Lemma fire_records_no_rename w root (l : list FileChangeItem) :
  Forall (fun ev => is_rename ev = false) (fire_records w root l).
Proof.
  induction l as [|f l IH]; [constructor|].
  simpl. apply Forall_app; split; [|done].
  destruct (exists_ f), (new f), (ignoreDeleteEvents w),
    (ignoreCreateEvents w), (ignoreChangeEvents w);
    repeat constructor.
Qed.

Lemma fire_file_rename_all_rename root (l : list FileChangeItem) :
  Forall (fun ev => is_rename ev = true) (fire_file_rename root l).
Proof.
  unfold fire_file_rename.
  repeat case_match; repeat constructor.
Qed.

Lemma fire_folder_rename_all_rename root (l : list FileChangeItem) :
  Forall (fun ev => is_rename ev = true) (fire_folder_rename root l).
Proof.
  unfold fire_folder_rename.
  destruct (Nat.leb 2 (length l)); [|constructor].
  destruct (splitArray l _) as [olds news].
  destruct (Nat.eqb _ _); [|constructor].
  induction olds as [|o olds IH]; [constructor|].
  simpl. apply Forall_app; split; [|done].
  case_match; repeat constructor.
Qed.

Lemma filter_all {A} (p : A → bool) (l : list A) :
  Forall (fun x => p x = true) l → List.filter p l = l.
Proof.
  induction 1 as [|x l Hx _ IH]; simpl; [done|]. by rewrite Hx, IH.
Qed.

Lemma filter_none {A} (p : A → bool) (l : list A) :
  Forall (fun x => p x = false) l → List.filter p l = [].
Proof.
  induction 1 as [|x l Hx _ IH]; simpl; [done|]. by rewrite Hx.
Qed.

Lemma record_events_onChange w c :
  record_events (onChange w c)
  = fire_records w (root c) (List.filter (keep (globPattern w)) (files c)).
Proof.
  unfold onChange. rewrite !record_events_app.
  unfold record_events.
  rewrite (filter_all _ (fire_records _ _ _)).
  - rewrite (filter_none _ (fire_file_rename _ _)),
      (filter_none _ (fire_folder_rename _ _)).
    + by rewrite !app_nil_r.
    + eapply Forall_impl; [apply fire_folder_rename_all_rename|].
      by intros ev ->.
    + eapply Forall_impl; [apply fire_file_rename_all_rename|].
      by intros ev ->.
  - eapply Forall_impl; [apply fire_records_no_rename|].
    by intros ev ->.
Qed.

Lemma renames_onChange w c :
  renames (onChange w c)
  = fire_file_rename (root c) (List.filter (keep (globPattern w)) (files c))
    ++ fire_folder_rename (root c)
         (List.filter (keep (globPattern w)) (files c)).
Proof.
  unfold onChange. rewrite !renames_app. unfold renames.
  rewrite (filter_none _ (fire_records _ _ _)) by apply fire_records_no_rename.
  rewrite (filter_all _ (fire_file_rename _ _))
    by apply fire_file_rename_all_rename.
  by rewrite (filter_all _ (fire_folder_rename _ _))
    by apply fire_folder_rename_all_rename.
Qed.

Lemma fire_file_rename_pairwise root (l : list FileChangeItem) :
  fire_file_rename root l = pairwise_rename root l.
Proof.
  unfold fire_file_rename, pairwise_rename.
  destruct l as [|a [|b [|? ?]]]; try done.
  case_bool_decide as Hd.
  - destruct Hd as (-> & -> & ->). simpl. by rewrite N.eqb_refl.
  - destruct (exists_ a), (exists_ b); simpl; try done.
    destruct (N.eqb_spec (size a) (size b)); naive_solver.
Qed.

Lemma same_stamp_true v o :
  same_stamp v o = true ↔ size o = size v ∧ mtime_ms o = mtime_ms v.
Proof.
  unfold same_stamp. rewrite andb_true_iff, !N.eqb_eq. done.
Qed.

Lemma find_partner (appeared : list FileChangeItem) v :
  partner_of appeared v (List.find (same_stamp v) appeared).
Proof.
  induction appeared as [|o l IH]; simpl.
  - intros o Ho. by apply elem_of_nil in Ho.
  - destruct (same_stamp v o) eqn:Hs.
    + apply same_stamp_true in Hs as [Hsz Hmt].
      exists [], l. split_and!; try done.
      intros o' Ho'. by apply elem_of_nil in Ho'.
    + assert (¬ (size o = size v ∧ mtime_ms o = mtime_ms v)) as Hno.
      { intros H%same_stamp_true. congruence. }
      destruct (List.find (same_stamp v) l) as [a|]; simpl in *.
      * destruct IH as (before & after & -> & Hsz & Hmt & Hbefore).
        exists (o :: before), after. split_and!; try done.
        intros o' [->|Ho']%elem_of_cons; auto.
      * intros o' [->|Ho']%elem_of_cons; auto.
Qed.

Lemma flat_map_partners root (appeared vanished : list FileChangeItem) :
  flat_map (fun oldFile =>
              match List.find (same_stamp oldFile) appeared with
              | Some newFile =>
                  [DidRename (file_uri root (name oldFile))
                             (file_uri root (name newFile))]
              | None => []
              end) vanished
  = flat_map (rename_of root)
      (zip vanished ((fun v => List.find (same_stamp v) appeared) <$> vanished)).
Proof.
  induction vanished as [|v vs IH]; simpl; [done|]. by rewrite IH.
Qed.

(** C1 (as amended).  When at least two records are kept and as many
    vanished as appeared, the folder-rename block pairs every vanished
    record, in order, with the first appeared record of the batch that
    carries its size and modification time, whether or not that record
    was paired before, and fires rename(vanished, partner); a vanished
    record whose stamp no appeared record carries adds no rename there.
    The whole run is the per-record events, then the pairwise rename,
    then these renames. *)
Theorem batch_rename_first_stamp w c :
  let kept := List.filter (keep (globPattern w)) (files c) in
  let vanished := List.filter (fun o => negb (exists_ o)) kept in
  let appeared := List.filter exists_ kept in
  2 ≤ length kept →
  length vanished = length appeared →
  ∃ partners : list (option FileChangeItem),
    Forall2 (partner_of appeared) vanished partners
    ∧ fire_folder_rename (root c) kept
      = flat_map (rename_of (root c)) (zip vanished partners)
    ∧ onChange w c
      = omap (classify w (root c)) kept
        ++ pairwise_rename (root c) kept
        ++ flat_map (rename_of (root c)) (zip vanished partners).
Proof.
  intros kept vanished appeared Hlen Heq.
  exists ((fun v => List.find (same_stamp v) appeared) <$> vanished).
  assert (fire_folder_rename (root c) kept
          = flat_map (rename_of (root c))
              (zip vanished
                 ((fun v => List.find (same_stamp v) appeared) <$> vanished)))
    as Hfolder.
  { unfold fire_folder_rename.
    apply Nat.leb_le in Hlen as ->.
    rewrite splitArray_filter.
    assert (List.filter (fun x => negb (negb (exists_ x))) kept = appeared)
      as ->.
    { unfold appeared. apply List.filter_ext. intros x. apply negb_involutive. }
    fold vanished. apply Nat.eqb_eq in Heq as ->.
    apply flat_map_partners. }
  split_and!.
  - apply Forall2_fmap_r, Forall_Forall2_diag, Forall_forall.
    intros v _. apply find_partner.
  - done.
  - unfold onChange. fold kept.
    by rewrite fire_records_classify, fire_file_rename_pairwise, Hfolder.
Qed.

(** C2.  When exactly two records are kept, the first absent, the
    second present and their sizes equal, the run consists of the
    per-record event of each of the two (delete for the first, create or
    change for the second, each unless ignored), followed by
    rename(first, second) from the pairwise block; the folder-rename
    block runs on the same list and fires the same rename once more
    when the modification times agree as well. *)
Theorem pairwise_rename_in_addition w c a b :
  List.filter (keep (globPattern w)) (files c) = [a; b] →
  exists_ a = false → exists_ b = true → size a = size b →
  onChange w c
  = (if ignoreDeleteEvents w then []
     else [DidDelete (file_uri (root c) (name a))])
    ++ (if new b
        then if ignoreCreateEvents w then []
             else [DidCreate (file_uri (root c) (name b))]
        else if ignoreChangeEvents w then []
             else [DidChange (file_uri (root c) (name b))])
    ++ [DidRename (file_uri (root c) (name a)) (file_uri (root c) (name b))]
    ++ (if bool_decide (mtime_ms b = mtime_ms a)
        then [DidRename (file_uri (root c) (name a))
                        (file_uri (root c) (name b))]
        else []).
Proof.
  intros Hkept Ha Hb Hsz.
  unfold onChange. rewrite Hkept.
  unfold fire_records, fire_file_rename,
    fire_folder_rename, same_stamp.
  do 2 (simpl; rewrite ?Ha, ?Hb, ?Hsz, ?N.eqb_refl).
  destruct (N.eqb_spec (mtime_ms b) (mtime_ms a)) as [Hmt|Hmt].
  - rewrite bool_decide_eq_true_2 by done.
    destruct (ignoreDeleteEvents w), (new b), (ignoreCreateEvents w),
      (ignoreChangeEvents w); reflexivity.
  - rewrite bool_decide_eq_false_2 by done.
    destruct (ignoreDeleteEvents w), (new b), (ignoreCreateEvents w),
      (ignoreChangeEvents w); reflexivity.
Qed.

(** C7.  The create/change/delete events of a run are, in batch order,
    one per kept record: delete for a record that does not exist, create
    for one that exists and is new, change for one that exists and is
    not new, each left out exactly when the matching ignore flag of the
    watcher is set.  The rename events of a run are the same for every
    setting of the three flags. *)
Theorem classification_and_ignore_flags w c :
  record_events (onChange w c)
  = omap (classify w (root c)) (List.filter (keep (globPattern w)) (files c))
  ∧ ∀ ic ich idel,
      renames (onChange {| globPattern := globPattern w;
                           ignoreCreateEvents := ic;
                           ignoreChangeEvents := ich;
                           ignoreDeleteEvents := idel |} c)
      = renames (onChange w c).
Proof.
  split.
  - by rewrite record_events_onChange, fire_records_classify.
  - intros ic ich idel. by rewrite !renames_onChange.
Qed.

(** C8.  A record that is not a file, or whose name the glob pattern
    does not match, can be taken out of its batch without changing the
    run: it fires nothing and takes no part in either rename block. *)
Theorem filtered_record_is_silent w r before f after :
  type f ≠ TFile ∨ minimatch (name f) (globPattern w) = false →
  onChange w {| root := r; files := before ++ f :: after |}
  = onChange w {| root := r; files := before ++ after |}.
Proof.
  intros Hf.
  assert (keep (globPattern w) f = false) as Hkeep.
  { unfold keep. destruct Hf as [Hty| ->].
    - destruct (type f); [done|done|done].
    - apply andb_false_r. }
  unfold onChange. simpl.
  rewrite !List.filter_app. simpl. by rewrite Hkeep.
Qed.

End ReconcileFacts.

(** *** The callback on concrete batches *)

(** The examples of section 8 of the specification. *)
Example pairwise_example :
  @onChange sample watch_all
    {| root := "/r"; files := [gone "a.txt" 10 1; fresh_file "b.txt" 10 2] |}
  = [DidDelete "/r/a.txt"; DidCreate "/r/b.txt"; DidRename "/r/a.txt" "/r/b.txt"].
Proof. reflexivity. Qed.

Example pairwise_negative_example :
  @onChange sample watch_all
    {| root := "/r"; files := [gone "a.txt" 10 1; fresh_file "b.txt" 11 2] |}
  = [DidDelete "/r/a.txt"; DidCreate "/r/b.txt"].
Proof. reflexivity. Qed.

Example batch_example :
  renames (@onChange sample watch_all
    {| root := "/r";
       files := [gone "x" 5 100; gone "y" 7 200;
                 fresh_file "p" 7 200; fresh_file "q" 5 100] |})
  = [DidRename "/r/x" "/r/q"; DidRename "/r/y" "/r/p"].
Proof. reflexivity. Qed.

Example batch_example_other_order :
  renames (@onChange sample watch_all
    {| root := "/r";
       files := [fresh_file "q" 5 100; gone "x" 5 100;
                 fresh_file "p" 7 200; gone "y" 7 200] |})
  = [DidRename "/r/x" "/r/q"; DidRename "/r/y" "/r/p"].
Proof. reflexivity. Qed.

Example ignore_delete_example :
  @onChange sample
    {| globPattern := "**"; ignoreCreateEvents := false;
       ignoreChangeEvents := false; ignoreDeleteEvents := true |}
    {| root := "/r"; files := [gone "a.txt" 10 1; fresh_file "b.txt" 10 2] |}
  = [DidCreate "/r/b.txt"; DidRename "/r/a.txt" "/r/b.txt"].
Proof. reflexivity. Qed.

(** C1, as stated, fails on [twin_batch]: the callback pairs both
    vanished records with the appeared record [p], which is thereby the
    new side of two renames, while handing out every appeared record at
    most once pairs [y] with [q].  It also fails on [lone_pair_batch]: no
    appeared record carries the stamp of the vanished one, and the run
    still contains a rename for it, fired by the pairwise block. *)
Lemma batch_rename_reuses_partner :
  renames (@onChange sample watch_all twin_batch)
  = [DidRename "/r/x" "/r/p"; DidRename "/r/y" "/r/p"]
  ∧ new_side_uses "/r/p" (@onChange sample watch_all twin_batch) = 2
  ∧ @batch_rename_spec sample "/r" (files twin_batch)
    = [DidRename "/r/x" "/r/p"; DidRename "/r/y" "/r/q"]
  ∧ renames (@onChange sample watch_all twin_batch)
    ≠ @batch_rename_spec sample "/r" (files twin_batch)
  ∧ @batch_rename_spec sample "/r" (files lone_pair_batch) = []
  ∧ @onChange sample watch_all lone_pair_batch
    = [DidDelete "/r/a.txt"; DidCreate "/r/b.txt";
       DidRename "/r/a.txt" "/r/b.txt"].
Proof.
  split_and!; [reflexivity|reflexivity|reflexivity| |reflexivity|reflexivity].
  vm_compute. discriminate.
Qed.

Lemma batch_rename_first_stamp_witness :
  ∃ partners : list (option FileChangeItem),
    Forall2 (partner_of [fresh_file "p" 5 100; fresh_file "q" 5 100])
            [gone "x" 5 100; gone "y" 5 100] partners
    ∧ @fire_folder_rename sample "/r" (files twin_batch)
      = flat_map (@rename_of sample "/r")
          (zip [gone "x" 5 100; gone "y" 5 100] partners)
    ∧ @onChange sample watch_all twin_batch
      = omap (@classify sample watch_all "/r") (files twin_batch)
        ++ @pairwise_rename sample "/r" (files twin_batch)
        ++ flat_map (@rename_of sample "/r")
             (zip [gone "x" 5 100; gone "y" 5 100] partners).
Proof.
  apply (@batch_rename_first_stamp sample watch_all twin_batch).
  - vm_compute. lia.
  - reflexivity.
Defined.

Lemma pairwise_rename_in_addition_witness :
  @onChange sample watch_all
    {| root := "/r"; files := [gone "a.txt" 10 7; fresh_file "b.txt" 10 7] |}
  = [DidDelete "/r/a.txt"; DidCreate "/r/b.txt";
     DidRename "/r/a.txt" "/r/b.txt"; DidRename "/r/a.txt" "/r/b.txt"].
Proof.
  apply (@pairwise_rename_in_addition sample watch_all
           {| root := "/r";
              files := [gone "a.txt" 10 7; fresh_file "b.txt" 10 7] |}
           (gone "a.txt" 10 7) (fresh_file "b.txt" 10 7));
    reflexivity.
Defined.

Lemma filtered_record_is_silent_witness :
  @onChange sample
    {| globPattern := "a.txt"; ignoreCreateEvents := false;
       ignoreChangeEvents := false; ignoreDeleteEvents := false |}
    {| root := "/r";
       files := [gone "a.txt" 10 1] ++ fresh_file "b.txt" 10 1 :: [] |}
  = @onChange sample
      {| globPattern := "a.txt"; ignoreCreateEvents := false;
         ignoreChangeEvents := false; ignoreDeleteEvents := false |}
      {| root := "/r"; files := [gone "a.txt" 10 1] ++ [] |}.
Proof.
  apply (@filtered_record_is_silent sample). right. reflexivity.
Defined.

(** ** The manager *)

(** *** Steps that leave the bookkeeping of the manager alone *)

(** A state change without effect and outside the bookkeeping. *)
Ltac same_trace := split; try done; exists []; by rewrite app_nil_r.

Lemma frame_refl s : frame s s.
Proof.
  same_trace.
Qed.

Lemma frame_trans s1 s2 s3 : frame s1 s2 → frame s2 s3 → frame s1 s3.
Proof.
  intros [? ? ? ? ? ? (e1 & He1 & Hi1)] [? ? ? ? ? ? (e2 & He2 & Hi2)].
  split; try congruence.
  exists (e1 ++ e2). split.
  - by rewrite He2, He1, app_assoc.
  - by apply Forall_app.
Qed.

Lemma frame_foldl {A} (f : World → A → World) (l : list A) s :
  (∀ s x, frame s (f s x)) → frame s (foldl f s l).
Proof.
  intros Hf. revert s. induction l as [|x l IH]; intros s; simpl.
  - apply frame_refl.
  - eapply frame_trans; [apply Hf|apply IH].
Qed.

Lemma frame_emit effs s :
  Forall (fun e => inert e = true) effs → frame s (emit effs s).
Proof. intros Hi. split; try done. by exists effs. Qed.

Lemma frame_listen w c s : frame s (listen w c s).
Proof.
  unfold listen. destruct (heap s !! w) as [fw|]; [|apply frame_refl].
  split; try done. eexists. split; [done|]. by repeat constructor.
Qed.

Lemma frame_listen_subscribed w d s : frame s (listen_subscribed w d s).
Proof.
  unfold listen_subscribed.
  destruct (heap s !! w) as [fw|]; [|apply frame_refl].
  destruct (fw_disposed fw).
  - apply frame_emit. by repeat constructor.
  - same_trace.
Qed.

Lemma frame_watcher_dispose w s : frame s (watcher_dispose w s).
Proof.
  unfold watcher_dispose.
  destruct (heap s !! w) as [fw|]; [|apply frame_refl].
  split; try done. eexists. split; [done|].
  unfold disposeAll. apply Forall_fmap, Forall_forall. done.
Qed.

Lemma frame_createFileSystemWatcher cfg s :
  frame s (createFileSystemWatcher cfg s).
Proof.
  unfold createFileSystemWatcher.
  set (s1 := set_heap _ s).
  assert (frame s s1) as H1.
  { same_trace. }
  set (s2 := foldl _ s1 _).
  assert (frame s1 s2) as H2 by (apply frame_foldl; intros; apply frame_listen).
  eapply frame_trans; [exact H1|]. eapply frame_trans; [exact H2|].
  same_trace.
Qed.

Lemma frame_on_error msg s : frame s (on_error msg s).
Proof.
  unfold on_error. apply frame_emit.
  destruct (channel s); by repeat constructor.
Qed.

Lemma frame_set_sub_pending v s : frame s (set_sub_pending v s).
Proof. same_trace. Qed.

Lemma frame_set_heap v s : frame s (set_heap v s).
Proof. same_trace. Qed.

(** *** What a step can do to the map and to the trace *)

Lemma evolves_same s s' :
  clientsMap s' = clientsMap s → trace s' = trace s → evolves s s'.
Proof.
  intros Hm Ht. split.
  - intros r. by rewrite Hm.
  - exists []. rewrite app_nil_r. split; [done|].
    intros e He. by apply elem_of_nil in He.
Qed.

Lemma evolves_refl s : evolves s s.
Proof. by apply evolves_same. Qed.

Lemma evolves_trans s1 s2 s3 : evolves s1 s2 → evolves s2 s3 → evolves s1 s3.
Proof.
  intros [Hm1 (e1 & He1 & Ha1)] [Hm2 (e2 & He2 & Ha2)]. split.
  - auto.
  - exists (e1 ++ e2). split; [by rewrite He2, He1, app_assoc|].
    intros e [He|He]%elem_of_app.
    + specialize (Ha1 e He). destruct e; simpl in *; auto.
    + specialize (Ha2 e He). destruct e; simpl in *; auto.
      destruct (clientsMap s1 !! root0) eqn:Hr; [|done].
      destruct (Hm1 root0) as [x Hx]; [by eexists|]. congruence.
Qed.

Lemma evolves_foldl {A} (f : World → A → World) (l : list A) s :
  (∀ s x, evolves s (f s x)) → evolves s (foldl f s l).
Proof.
  intros Hf. revert s. induction l as [|x l IH]; intros s; simpl.
  - apply evolves_refl.
  - eapply evolves_trans; [apply Hf|apply IH].
Qed.

Lemma evolves_iter n (f : World → World) s :
  (∀ s, evolves s (f s)) → evolves s (Nat.iter n f s).
Proof.
  intros Hf. induction n as [|n IH]; simpl.
  - apply evolves_refl.
  - eapply evolves_trans; [apply IH|apply Hf].
Qed.

Lemma frame_evolves s s' : frame s s' → evolves s s'.
Proof.
  intros [_ Hm _ _ _ _ (effs & Ht & Hi)]. split.
  - intros r. by rewrite Hm.
  - exists effs. split; [done|]. intros e He.
    rewrite Forall_forall in Hi. specialize (Hi e He).
    by destruct e.
Qed.

Lemma evolves_createClient r s : evolves s (createClient r s).
Proof.
  unfold createClient. destruct (watchmanPath s) as [path|]; [|apply evolves_refl].
  destruct (bool_decide (r ∈ creatingRoots s)); simpl; [apply evolves_refl|].
  unfold has_client. case_bool_decide as Hr; [apply evolves_refl|].
  split; [done|]. eexists. split; [done|].
  intros e ->%list_elem_of_singleton. simpl.
  by apply eq_None_not_Some.
Qed.

Lemma evolves_fire_created r s :
  is_Some (clientsMap s !! r) → evolves s (fire_created r s).
Proof.
  intros Hr. unfold fire_created.
  destruct (_onDidCreateClient s) as [ls|]; [|apply evolves_refl].
  split; [done|]. eexists. split; [done|].
  intros e (l & -> & Hl)%list_elem_of_fmap.
  apply list_elem_of_In, List.filter_In in Hl as [_ Hl].
  apply bool_decide_eq_true in Hl. simpl. by rewrite Hl.
Qed.

Lemma evolves_waitClient r s : evolves s (waitClient r s).
Proof.
  unfold waitClient, has_client. simpl. case_bool_decide as Hr.
  - split; [done|]. eexists. split; [done|].
    by intros e ->%list_elem_of_singleton.
  - by apply evolves_same.
Qed.

Lemma evolves_dispose s : evolves s (dispose s).
Proof.
  split; [done|]. eexists. split; [done|].
  by intros e (c & -> & _)%list_elem_of_fmap.
Qed.

Lemma evolves_folders_changed added removed s :
  evolves s (folders_changed added removed s).
Proof.
  unfold folders_changed.
  set (s1 := foldl _ s added).
  assert (evolves s s1) as H1
    by (apply evolves_foldl; intros; apply evolves_createClient).
  eapply evolves_trans; [exact H1|].
  apply evolves_foldl. intros s' r.
  destruct (clientsMap s' !! r) as [[c|]|]; try apply evolves_refl.
  apply frame_evolves, frame_emit. by repeat constructor.
Qed.

Lemma evolves_attach ch folders s : evolves s (attach ch folders s).
Proof.
  unfold attach.
  set (s1 := set_channel (Some ch) s).
  set (s2 := foldl _ s1 folders).
  assert (evolves s s1) as H1 by by apply evolves_same.
  assert (evolves s1 s2) as H2
    by (apply evolves_foldl; intros; apply evolves_createClient).
  eapply evolves_trans; [exact H1|]. eapply evolves_trans; [exact H2|].
  by apply evolves_same.
Qed.

Lemma evolves_createClient_fulfilled r client s :
  evolves s (createClient_fulfilled r client s).
Proof.
  unfold createClient_fulfilled.
  set (s1 := set_creatingRoots _ s).
  assert (evolves s s1) as H1 by by apply evolves_same.
  eapply evolves_trans; [exact H1|].
  change (_disposed s1) with (_disposed s). destruct (_disposed s).
  - destruct client as [c|].
    + apply frame_evolves, frame_emit. by repeat constructor.
    + apply frame_evolves, frame_on_error.
  - set (s2 := set_clientsMap _ _).
    assert (evolves s1 s2) as H2.
    { split.
      - intros r' Hr'. simpl. destruct (decide (r = r')) as [->|Hne].
        + rewrite lookup_insert_eq. by eexists.
        + by rewrite lookup_insert_ne.
      - exists []. rewrite app_nil_r. split; [done|].
        intros e He. by apply elem_of_nil in He. }
    eapply evolves_trans; [exact H2|].
    set (s3 := match client with Some c => _ | None => s2 end).
    assert (frame s2 s3) as H3.
    { unfold s3. destruct client as [c|]; [|apply frame_refl].
      apply frame_foldl. intros. apply frame_listen. }
    eapply evolves_trans; [apply frame_evolves; exact H3|].
    apply evolves_fire_created.
    rewrite (fr_map _ _ H3). simpl. rewrite lookup_insert_eq. by eexists.
Qed.

Lemma evolves_step op s : evolves s (step op s).
Proof.
  destruct op; simpl.
  - apply evolves_attach.
  - apply evolves_iter. intros. apply evolves_folders_changed.
  - case_bool_decide; [|apply evolves_refl].
    eapply evolves_trans; [|apply evolves_createClient_fulfilled].
    by apply evolves_same.
  - case_bool_decide; [|apply evolves_refl].
    eapply evolves_trans; [|apply frame_evolves, frame_on_error].
    by apply evolves_same.
  - apply evolves_waitClient.
  - apply frame_evolves, frame_createFileSystemWatcher.
  - case_bool_decide; [|apply evolves_refl].
    eapply evolves_trans; [|apply frame_evolves, frame_listen_subscribed].
    by apply evolves_same.
  - case_bool_decide; [|apply evolves_refl].
    eapply evolves_trans; [|apply frame_evolves, frame_emit; by repeat constructor].
    by apply evolves_same.
  - destruct (heap s !! watcher); [|apply evolves_refl]. by apply evolves_same.
  - apply frame_evolves, frame_watcher_dispose.
  - apply evolves_dispose.
Qed.

Lemma evolves_run ops s : evolves s (run ops s).
Proof.
  unfold run. apply evolves_foldl. intros. apply evolves_step.
Qed.

(** *** Invariants of the bookkeeping *)

Lemma core_frame s s' : frame s s' → core s' = core s.
Proof. intros [? ? ? ? _ _ _]. unfold core. congruence. Qed.

Lemma Inv_core s s' : core s' = core s → Inv s → Inv s'.
Proof. unfold core, Inv. intros [= -> -> -> ->]. done. Qed.

Lemma Stuck_core r s s' : core s' = core s → Stuck r s → Stuck r s'.
Proof. unfold core, Stuck. intros [= -> -> -> ->]. done. Qed.

Lemma preserved_foldl {A} (P : World → Prop) (f : World → A → World) l s :
  (∀ s x, P s → P (f s x)) → P s → P (foldl f s l).
Proof.
  intros Hf. revert s. induction l as [|x l IH]; intros s Hs; simpl; auto.
Qed.

Lemma preserved_iter (P : World → Prop) (f : World → World) n s :
  (∀ s, P s → P (f s)) → P s → P (Nat.iter n f s).
Proof. intros Hf Hs. induction n as [|n IH]; simpl; auto. Qed.

Lemma remove_first_elem {A} `{EqDecision A} (x y : A) l :
  x ∈ remove_first y l → x ∈ l.
Proof.
  induction l as [|z l IH]; simpl; [done|].
  destruct (decide (y = z)) as [->|Hne].
  - intros Hx. apply elem_of_cons. by right.
  - intros [->|Hx]%elem_of_cons; [left|right; auto].
Qed.

Lemma remove_first_NoDup {A} `{EqDecision A} (y : A) l :
  NoDup l → NoDup (remove_first y l) ∧ y ∉ remove_first y l.
Proof.
  induction 1 as [|z l Hz Hl IH]; simpl.
  - split; [constructor|]. by intros ?%elem_of_nil.
  - destruct (decide (y = z)) as [->|Hne]; [done|].
    destruct IH as [IH1 IH2]. split.
    + constructor; [|done]. intros Hin. by apply Hz, (remove_first_elem _ y).
    + intros [->|Hy]%elem_of_cons; done.
Qed.

Lemma Inv_init path : Inv (init path).
Proof.
  split; simpl.
  - by intros r ?%elem_of_nil.
  - intros _. split; [constructor|]. by intros r ?%elem_of_nil.
Qed.

Lemma Inv_createClient r s : Inv s → Inv (createClient r s).
Proof.
  intros [Hun Hlive]. unfold createClient.
  destruct (watchmanPath s) as [path|]; [|done].
  case_bool_decide as Hcr; simpl; [done|].
  unfold has_client. case_bool_decide as Hmap; [done|].
  apply eq_None_not_Some in Hmap.
  split; simpl.
  - intros r' [Hr'| ->%list_elem_of_singleton]%elem_of_app; auto.
  - intros Hd. destruct (Hlive Hd) as [Hnd Hsub]. split.
    + apply NoDup_app. split_and!; [done| |apply NoDup_singleton].
      intros r' Hr' ->%list_elem_of_singleton. auto.
    + intros r' [Hr'| ->%list_elem_of_singleton]%elem_of_app.
      * apply elem_of_union_l. auto.
      * apply elem_of_union_r. by apply elem_of_singleton.
Qed.

Lemma Stuck_createClient r r' s : Stuck r s → Stuck r (createClient r' s).
Proof.
  intros [Hun Hmark]. unfold createClient.
  destruct (watchmanPath s) as [path|]; [|done].
  case_bool_decide as Hcr; simpl; [done|].
  unfold has_client. case_bool_decide as Hmap; [done|].
  split; simpl; [done|].
  destruct Hmark as [Hd|[Hin Hnp]]; [by left|right].
  split; [set_solver|].
  intros [?| ->%list_elem_of_singleton]%elem_of_app; done.
Qed.

Lemma Inv_folders_changed added removed s :
  Inv s → Inv (folders_changed added removed s).
Proof.
  intros Hs. unfold folders_changed.
  apply preserved_foldl.
  - intros s' r Hs'. destruct (clientsMap s' !! r) as [[c|]|]; done.
  - apply preserved_foldl; [|done]. intros. by apply Inv_createClient.
Qed.

Lemma Stuck_folders_changed r added removed s :
  Stuck r s → Stuck r (folders_changed added removed s).
Proof.
  intros Hs. unfold folders_changed.
  apply preserved_foldl.
  - intros s' r' Hs'. destruct (clientsMap s' !! r') as [[c|]|]; done.
  - apply preserved_foldl; [|done]. intros. by apply Stuck_createClient.
Qed.

Lemma core_createClient_fulfilled_live r client s :
  _disposed s = false →
  core (createClient_fulfilled r client s)
  = (creatingRoots s ∖ {[r]}, <[r:=client]> (clientsMap s), false, pending s).
Proof.
  intros Hd. unfold createClient_fulfilled. simpl. rewrite Hd.
  set (s2 := set_clientsMap _ _).
  set (s3 := match client with Some c => _ | None => s2 end).
  assert (frame s2 s3) as H3.
  { unfold s3. destruct client as [c|]; [|apply frame_refl].
    apply frame_foldl. intros. apply frame_listen. }
  assert (core (fire_created r s3) = core s3) as ->.
  { unfold fire_created. by destruct (_onDidCreateClient s3). }
  rewrite (core_frame _ _ H3). unfold core. simpl. by rewrite Hd.
Qed.

Lemma core_createClient_fulfilled_disposed r client s :
  _disposed s = true →
  core (createClient_fulfilled r client s)
  = (creatingRoots s ∖ {[r]}, clientsMap s, true, pending s).
Proof.
  intros Hd. unfold createClient_fulfilled. simpl. rewrite Hd.
  destruct client as [c|]; unfold core; simpl; by rewrite Hd.
Qed.

Lemma Inv_step op s : Inv s → Inv (step op s).
Proof.
  intros Hs. destruct op; simpl.
  - unfold attach. eapply Inv_core; [reflexivity|].
    apply (preserved_foldl Inv); [intros; by apply Inv_createClient|done].
  - apply preserved_iter; [|done]. intros. by apply Inv_folders_changed.
  - case_bool_decide as Hp; [|done].
    destruct Hs as [Hun Hlive].
    destruct (_disposed s) eqn:Hd.
    + pose proof (core_createClient_fulfilled_disposed root0 client
                    (set_pending (remove_first root0 (pending s)) s) Hd) as Hc.
      unfold Inv. unfold core in Hc. simpl in Hc.
      injection Hc as -> -> -> ->. split; [|done].
      intros r Hr%remove_first_elem. auto.
    + pose proof (core_createClient_fulfilled_live root0 client
                    (set_pending (remove_first root0 (pending s)) s) Hd) as Hc.
      unfold Inv. unfold core in Hc. simpl in Hc.
      injection Hc as -> -> -> ->.
      destruct (Hlive eq_refl) as [Hnd Hsub].
      destruct (remove_first_NoDup root0 _ Hnd) as [Hnd' Hnot].
      split.
      * intros r Hr. rewrite lookup_insert_ne; [|by intros ->].
        apply Hun. by eapply remove_first_elem.
      * intros _. split; [done|]. intros r Hr.
        assert (r ≠ root0) by by intros ->.
        apply remove_first_elem in Hr.
        apply elem_of_difference. split; [auto|].
        by intros ?%elem_of_singleton.
  - case_bool_decide as Hp; [|done].
    eapply Inv_core; [apply core_frame, frame_on_error|].
    destruct Hs as [Hun Hlive]. split; simpl.
    + intros r Hr%remove_first_elem. auto.
    + intros Hd. destruct (Hlive Hd) as [Hnd Hsub]. split.
      * by apply remove_first_NoDup.
      * intros r Hr%remove_first_elem. auto.
  - eapply Inv_core; [|exact Hs]. unfold waitClient. by case_match.
  - eapply Inv_core; [apply core_frame, frame_createFileSystemWatcher|done].
  - case_bool_decide; [|done].
    eapply Inv_core; [apply core_frame, frame_listen_subscribed|done].
  - case_bool_decide; done.
  - by destruct (heap s !! watcher).
  - eapply Inv_core; [apply core_frame, frame_watcher_dispose|done].
  - destruct Hs as [Hun Hlive]. split; simpl; done.
Qed.

Lemma Inv_run ops s : Inv s → Inv (run ops s).
Proof. apply preserved_foldl. intros. by apply Inv_step. Qed.

Lemma Stuck_step r op s : Stuck r s → Stuck r (step op s).
Proof.
  intros Hs. destruct op; simpl.
  - unfold attach. eapply Stuck_core; [reflexivity|].
    apply (preserved_foldl (Stuck r)); [intros; by apply Stuck_createClient|done].
  - apply preserved_iter; [|done]. intros. by apply Stuck_folders_changed.
  - case_bool_decide as Hp; [|done].
    destruct Hs as [Hun Hmark].
    destruct (_disposed s) eqn:Hd.
    + pose proof (core_createClient_fulfilled_disposed root0 client
                    (set_pending (remove_first root0 (pending s)) s) Hd) as Hc.
      unfold Stuck. unfold core in Hc. simpl in Hc.
      injection Hc as -> -> -> ->. split; [done|by left].
    + pose proof (core_createClient_fulfilled_live root0 client
                    (set_pending (remove_first root0 (pending s)) s) Hd) as Hc.
      unfold Stuck. unfold core in Hc. simpl in Hc.
      injection Hc as -> -> -> ->.
      destruct Hmark as [?|[Hin Hnp]]; [done|].
      assert (r ≠ root0) by by intros ->.
      split; [by rewrite lookup_insert_ne|right]. split; [set_solver|].
      by intros ?%remove_first_elem.
  - case_bool_decide as Hp; [|done].
    eapply Stuck_core; [apply core_frame, frame_on_error|].
    destruct Hs as [Hun Hmark]. split; simpl; [done|].
    destruct Hmark as [?|[Hin Hnp]]; [by left|right]. split; [done|].
    by intros ?%remove_first_elem.
  - eapply Stuck_core; [|exact Hs]. unfold waitClient. by case_match.
  - eapply Stuck_core; [apply core_frame, frame_createFileSystemWatcher|done].
  - case_bool_decide; [|done].
    eapply Stuck_core; [apply core_frame, frame_listen_subscribed|done].
  - case_bool_decide; done.
  - by destruct (heap s !! watcher).
  - eapply Stuck_core; [apply core_frame, frame_watcher_dispose|done].
  - destruct Hs as [Hun Hmark]. split; simpl; [done|by left].
Qed.

Lemma Stuck_run r ops s : Stuck r s → Stuck r (run ops s).
Proof. apply preserved_foldl. intros. by apply Stuck_step. Qed.

(** *** Creating clients *)

Lemma createClient_blocked r s :
  watchmanPath s = None ∨ r ∈ creatingRoots s ∨ is_Some (clientsMap s !! r) →
  createClient r s = s.
Proof.
  intros Hb. unfold createClient, has_client.
  destruct (watchmanPath s) as [path|]; [|done].
  destruct Hb as [?|[Hc|Hm]]; [done| |].
  - by rewrite bool_decide_eq_true_2.
  - rewrite (bool_decide_eq_true_2 _ Hm). by rewrite orb_true_r.
Qed.

Lemma createClient_fresh r s path :
  watchmanPath s = Some path → r ∉ creatingRoots s → clientsMap s !! r = None →
  createClient r s
  = emit [CallCreateClient path r]
      (set_pending (pending s ++ [r])
         (set_creatingRoots (creatingRoots s ∪ {[r]}) s)).
Proof.
  intros Hp Hc Hm. unfold createClient, has_client. rewrite Hp.
  rewrite (bool_decide_eq_false_2 _ Hc).
  rewrite bool_decide_eq_false_2; [done|].
  rewrite Hm. by intros [? ?].
Qed.

Lemma iter_fixed (f : World → World) n s : f s = s → Nat.iter n f s = s.
Proof. intros Hf. induction n as [|n IH]; simpl; [done|]. by rewrite IH. Qed.

Lemma factory_calls_app r s effs :
  factory_calls r (emit effs s)
  = factory_calls r s
    + length (List.filter (fun e => match e with
                                    | CallCreateClient _ r' => bool_decide (r' = r)
                                    | _ => false
                                    end) effs).
Proof.
  unfold factory_calls, emit. simpl.
  by rewrite List.filter_app, length_app.
Qed.

Lemma step_ClientFailed r msg s :
  r ∈ pending s →
  step (ClientFailed r msg) s
  = on_error msg (set_pending (remove_first r (pending s)) s).
Proof. intros Hp. simpl. by rewrite (bool_decide_eq_true_2 _ Hp). Qed.

Lemma failed_root_is_stuck path ops0 r msg :
  r ∈ pending (run ops0 (init path)) →
  Stuck r (step (ClientFailed r msg) (run ops0 (init path))).
Proof.
  intros Hp. rewrite (step_ClientFailed _ _ _ Hp).
  assert (Inv (run ops0 (init path))) as [Hun Hlive] by apply Inv_run, Inv_init.
  split; simpl; [auto|].
  destruct (_disposed (run ops0 (init path))) eqn:Hd; [by left|right].
  destruct (Hlive eq_refl) as [Hnd Hsub]. split; [auto|].
  by apply remove_first_NoDup.
Qed.

(** The failure of a request on any run.  The continuation of
    [createClient] is its [catch] block: the error goes to the logger and,
    when a channel is attached, to the channel; nothing is stored for the
    root and the factory is not asked again.  The set of roots being
    created is left as it is, so on a live manager the failed root keeps
    its mark.  From then on the root never gets an entry, and while the
    manager is not disposed every further request for it returns at
    once. *)
Lemma creation_failure_keeps_mark path ops0 r msg :
  let s := run ops0 (init path) in
  r ∈ pending s →
  let s1 := step (ClientFailed r msg) s in
  creatingRoots s1 = creatingRoots s
  ∧ (_disposed s = false → r ∈ creatingRoots s1)
  ∧ trace s1
    = trace s ++ LoggerError msg ::
        match channel s with
        | Some ch => [ChannelAppendLine ch ("Error on create watchman client:" +:+ msg)]
        | None => []
        end
  ∧ clientsMap s1 = clientsMap s
  ∧ ∀ ops1,
      clientsMap (run ops1 s1) !! r = None
      ∧ (_disposed (run ops1 s1) = false →
         createClient r (run ops1 s1) = run ops1 s1).
Proof.
  intros s Hp s1.
  assert (Inv s) as [Hun Hlive] by apply Inv_run, Inv_init.
  assert (s1 = on_error msg (set_pending (remove_first r (pending s)) s)) as Hs1
    by by apply step_ClientFailed.
  assert (Stuck r s1) as Hstuck by by apply failed_root_is_stuck.
  split_and!.
  - by rewrite Hs1.
  - intros Hd. rewrite Hs1. simpl. by apply Hlive.
  - by rewrite Hs1.
  - by rewrite Hs1.
  - intros ops1. destruct (Stuck_run r ops1 s1 Hstuck) as [Hnone Hmark].
    split; [done|]. intros Hd.
    apply createClient_blocked. right; left.
    destruct Hmark as [?|[? _]]; [congruence|done].
Qed.

(** C5 (as amended).  On a manager without watchman path, or for a root
    that is marked as being created or has an entry, any number of
    requests changes nothing.  On a manager with a watchman path, any
    positive number of requests in a row for a root that is neither
    marked nor mapped asks the factory exactly once, marks the root and
    leaves one unsettled request; when that request is fulfilled on a live
    manager the map gets its one entry for the root, and further requests
    change nothing. *)
Theorem creation_dedup s r n :
  (watchmanPath s = None ∨ r ∈ creatingRoots s ∨ is_Some (clientsMap s !! r) →
   Nat.iter n (createClient r) s = s)
  ∧ ∀ path,
      watchmanPath s = Some path → r ∉ creatingRoots s →
      clientsMap s !! r = None →
      let s' := Nat.iter (S n) (createClient r) s in
      trace s' = trace s ++ [CallCreateClient path r]
      ∧ factory_calls r s' = S (factory_calls r s)
      ∧ r ∈ creatingRoots s'
      ∧ pending s' = pending s ++ [r]
      ∧ clientsMap s' = clientsMap s
      ∧ ∀ client,
          _disposed s = false →
          let s'' := step (ClientCreated r client) s' in
          clientsMap s'' = <[r:=client]> (clientsMap s)
          ∧ Nat.iter n (createClient r) s'' = s''.
Proof.
  split.
  - intros Hb. by apply iter_fixed, createClient_blocked.
  - intros path Hp Hc Hm s'.
    set (s1 := createClient r s).
    assert (s1 = emit [CallCreateClient path r]
                   (set_pending (pending s ++ [r])
                      (set_creatingRoots (creatingRoots s ∪ {[r]}) s))) as Hs1
      by by apply createClient_fresh.
    assert (r ∈ creatingRoots s1) as Hin.
    { rewrite Hs1. simpl. apply elem_of_union_r. by apply elem_of_singleton. }
    assert (s' = s1) as ->.
    { unfold s'. rewrite Nat.iter_succ_r. fold s1.
      apply iter_fixed, createClient_blocked. auto. }
    split_and!.
    + by rewrite Hs1.
    + rewrite Hs1, factory_calls_app. unfold factory_calls. simpl.
      rewrite bool_decide_eq_true_2 by done. simpl. lia.
    + done.
    + by rewrite Hs1.
    + by rewrite Hs1.
    + intros client Hd s''.
      assert (r ∈ pending s1) as Hpend.
      { rewrite Hs1. simpl. apply elem_of_app. right. by apply list_elem_of_singleton. }
      assert (clientsMap s'' = <[r:=client]> (clientsMap s)) as Hmap.
      { unfold s''. simpl. rewrite (bool_decide_eq_true_2 _ Hpend).
        set (s2 := set_pending _ s1).
        assert (_disposed s2 = false) as Hd2 by (unfold s2; by rewrite Hs1).
        pose proof (core_createClient_fulfilled_live r client s2 Hd2) as Hcore.
        unfold core in Hcore. injection Hcore as _ Hcm _ _.
        rewrite Hcm. unfold s2. by rewrite Hs1. }
      split; [done|].
      apply iter_fixed, createClient_blocked. right; right.
      rewrite Hmap, lookup_insert_eq. by eexists.
Qed.

(** C6.  When the request for a root is fulfilled with a client after the
    manager was disposed, the only effect is the disposal of that client:
    the map, the watcher objects, the unsettled subscriptions and the
    listeners of [onDidCreateClient] are as before, so the client is not
    stored, no watcher subscribes to it and no waiter is told. *)
Theorem late_client_is_discarded s r c :
  _disposed s = true → r ∈ pending s →
  let s' := step (ClientCreated r (Some c)) s in
  trace s' = trace s ++ [ClientDispose c]
  ∧ clientsMap s' = clientsMap s
  ∧ sub_pending s' = sub_pending s
  ∧ heap s' = heap s
  ∧ watchers s' = watchers s
  ∧ _onDidCreateClient s' = _onDidCreateClient s
  ∧ creatingRoots s' = creatingRoots s ∖ {[r]}
  ∧ pending s' = remove_first r (pending s).
Proof.
  intros Hd Hp s'. unfold s'. simpl.
  rewrite (bool_decide_eq_true_2 _ Hp).
  unfold createClient_fulfilled. simpl. rewrite Hd. done.
Qed.

(** *** Waiting for a client *)

Lemma quiet_same s s' : trace s' = trace s → quiet s s'.
Proof. intros Ht. exists []. by rewrite app_nil_r. Qed.

Lemma quiet_trans s1 s2 s3 : quiet s1 s2 → quiet s2 s3 → quiet s1 s3.
Proof.
  intros (e1 & He1 & Hq1) (e2 & He2 & Hq2). exists (e1 ++ e2). split.
  - by rewrite He2, He1, app_assoc.
  - by apply Forall_app.
Qed.

Lemma quiet_foldl {A} (f : World → A → World) (l : list A) s :
  (∀ s x, quiet s (f s x)) → quiet s (foldl f s l).
Proof.
  intros Hf. revert s. induction l as [|x l IH]; intros s; simpl.
  - by apply quiet_same.
  - eapply quiet_trans; [apply Hf|apply IH].
Qed.

Lemma quiet_iter n (f : World → World) s :
  (∀ s, quiet s (f s)) → quiet s (Nat.iter n f s).
Proof.
  intros Hf. induction n as [|n IH]; simpl.
  - by apply quiet_same.
  - eapply quiet_trans; [apply IH|apply Hf].
Qed.

Lemma frame_quiet s s' : frame s s' → quiet s s'.
Proof.
  intros [_ _ _ _ _ _ (effs & Ht & Hi)]. exists effs. split; [done|].
  eapply Forall_impl; [exact Hi|]. by intros [].
Qed.

Lemma quiet_elem s s' id r :
  quiet s s' → WaitResolved id r ∈ trace s' → WaitResolved id r ∈ trace s.
Proof.
  intros (effs & -> & Hq) [?|Hin]%elem_of_app; [done|].
  rewrite Forall_forall in Hq. by specialize (Hq _ Hin).
Qed.

Lemma quiet_createClient r s : quiet s (createClient r s).
Proof.
  unfold createClient. destruct (watchmanPath s); [|by apply quiet_same].
  destruct (_ || _); [by apply quiet_same|].
  eexists. split; [done|]. by repeat constructor.
Qed.

Lemma quiet_folders_changed added removed s :
  quiet s (folders_changed added removed s).
Proof.
  unfold folders_changed.
  set (s1 := foldl _ s added).
  assert (quiet s s1) as H1
    by (apply quiet_foldl; intros; apply quiet_createClient).
  eapply quiet_trans; [exact H1|].
  apply quiet_foldl. intros s' r.
  destruct (clientsMap s' !! r) as [[c|]|]; try by apply quiet_same.
  eexists. split; [done|]. by repeat constructor.
Qed.

Lemma quiet_attach ch folders s : quiet s (attach ch folders s).
Proof.
  unfold attach.
  set (s1 := set_channel (Some ch) s).
  set (s2 := foldl _ s1 folders).
  assert (quiet s1 s2) as H2
    by (apply quiet_foldl; intros; apply quiet_createClient).
  eapply quiet_trans; [by apply (quiet_same s s1)|].
  eapply quiet_trans; [exact H2|]. by apply quiet_same.
Qed.

Lemma quiet_dispose s : quiet s (dispose s).
Proof.
  eexists. split; [done|]. by apply Forall_fmap, Forall_forall.
Qed.

(** The trace of the fulfilled continuation on a live manager: the
    subscriptions of the watchers, then the waiters of this root. *)
Lemma trace_createClient_fulfilled_live r client s :
  _disposed s = false →
  ∃ subs,
    Forall (fun e => inert e = true) subs
    ∧ trace (createClient_fulfilled r client s)
      = trace s ++ subs
        ++ ((fun l => WaitResolved l.1 l.2)
              <$> List.filter (fun l => bool_decide (l.2 = r))
                    (emitter_listeners (_onDidCreateClient s))).
Proof.
  intros Hd. unfold createClient_fulfilled. simpl. rewrite Hd.
  set (s2 := set_clientsMap _ _).
  set (s3 := match client with Some c => _ | None => s2 end).
  assert (frame s2 s3) as H3.
  { unfold s3. destruct client as [c|]; [|apply frame_refl].
    apply frame_foldl. intros. apply frame_listen. }
  destruct (fr_trace _ _ H3) as (subs & Ht & Hi).
  exists subs. split; [done|].
  unfold fire_created. rewrite (fr_emitter _ _ H3). simpl.
  destruct (_onDidCreateClient s) as [ls|]; simpl.
  - by rewrite Ht, app_assoc.
  - by rewrite Ht, app_nil_r.
Qed.

Lemma resolved_are_mapped s s' id r :
  evolves s s' → trace s = [] →
  WaitResolved id r ∈ trace s' → is_Some (clientsMap s' !! r).
Proof.
  intros [_ (effs & Ht & Ha)] Hnil Hin.
  rewrite Ht, Hnil in Hin. by apply (Ha _ Hin).
Qed.

(** *** Entries of the map are never removed *)

Lemma clientsMap_createClient r s : clientsMap (createClient r s) = clientsMap s.
Proof.
  unfold createClient. destruct (watchmanPath s); [|done]. by destruct (_ || _).
Qed.

Lemma clientsMap_folders_changed added removed s :
  clientsMap (folders_changed added removed s) = clientsMap s.
Proof.
  unfold folders_changed.
  apply (preserved_foldl (fun s' => clientsMap s' = clientsMap s)).
  - intros s' r Hs'. by destruct (clientsMap s' !! r) as [[c|]|].
  - apply (preserved_foldl (fun s' => clientsMap s' = clientsMap s)); [|done].
    intros s' r Hs'. by rewrite clientsMap_createClient.
Qed.

Lemma factory_calls_evolves r s s' :
  evolves s s' → is_Some (clientsMap s !! r) →
  factory_calls r s' = factory_calls r s.
Proof.
  intros [_ (effs & Ht & Ha)] [x Hx]. unfold factory_calls.
  rewrite Ht, List.filter_app, length_app.
  rewrite (filter_none _ effs); [simpl; lia|].
  apply Forall_forall. intros e He. specialize (Ha e He).
  destruct e; try done. simpl in *.
  apply bool_decide_eq_false_2. intros ->. congruence.
Qed.

(** C10.  Once a root has an entry in the map it keeps one through every
    run: neither a change of the workspace folders (which disposes the
    client of a removed root) nor the disposal of the manager touches the
    map.  For such a root a request for a client changes nothing, the
    factory is never asked again, and [waitClient] resolves at once. *)
Theorem map_entries_are_permanent s r ops :
  is_Some (clientsMap s !! r) →
  (∀ added removed,
     clientsMap (step (ChangeWorkspaceFolders added removed) s) = clientsMap s)
  ∧ clientsMap (step Dispose s) = clientsMap s
  ∧ (∀ c, clientsMap s !! r = Some (Some c) → disposables s = 1 →
       trace (step (ChangeWorkspaceFolders [] [r]) s)
       = trace s ++ [ClientDispose c])
  ∧ is_Some (clientsMap (run ops s) !! r)
  ∧ factory_calls r (run ops s) = factory_calls r s
  ∧ createClient r (run ops s) = run ops s
  ∧ trace (waitClient r (run ops s))
    = trace (run ops s) ++ [WaitResolved (next_waiter (run ops s)) r].
Proof.
  intros Hr.
  assert (is_Some (clientsMap (run ops s) !! r)) as Hr'
    by by apply (ev_map _ _ (evolves_run ops s)).
  split_and!.
  - intros added removed. simpl.
    apply (preserved_iter (fun s' => clientsMap s' = clientsMap s)); [|done].
    intros s' Hs'. by rewrite clientsMap_folders_changed.
  - done.
  - intros c Hc Hd. simpl. rewrite Hd. simpl.
    unfold folders_changed. simpl. by rewrite Hc.
  - done.
  - by apply factory_calls_evolves; [apply evolves_run|].
  - apply createClient_blocked. auto.
  - unfold waitClient, has_client. simpl.
    by rewrite (bool_decide_eq_true_2 _ Hr').
Qed.

(** *** The map and the disposed flag, step by step *)

Lemma disposed_createClient r s : _disposed (createClient r s) = _disposed s.
Proof.
  unfold createClient. destruct (watchmanPath s); [|done]. by destruct (_ || _).
Qed.

Lemma disposed_folders_changed added removed s :
  _disposed (folders_changed added removed s) = _disposed s.
Proof.
  unfold folders_changed.
  apply (preserved_foldl (fun s' => _disposed s' = _disposed s)).
  - intros s' r Hs'. by destruct (clientsMap s' !! r) as [[c|]|].
  - apply (preserved_foldl (fun s' => _disposed s' = _disposed s)); [|done].
    intros s' r Hs'. by rewrite disposed_createClient.
Qed.

(** The map is changed by one kind of step only. *)
Lemma clientsMap_step op s :
  (clientsMap (step op s) = clientsMap s
   ∧ (_disposed s = true → _disposed (step op s) = true))
  ∨ ∃ r c, op = ClientCreated r c ∧ r ∈ pending s ∧ _disposed s = false
           ∧ _disposed (step op s) = false
           ∧ clientsMap (step op s) = <[r:=c]> (clientsMap s).
Proof.
  destruct op as [ch folders|added removed|r0 client|r0 msg|r0|cfg
                 |w c d|w c msg|w st l|w|]; cbn [step].
  - left. unfold attach. simpl. split.
    + apply (preserved_foldl (fun s' => clientsMap s' = clientsMap s)); [|done].
      intros s' r Hs'. by rewrite clientsMap_createClient.
    + intros Hd.
      apply (preserved_foldl (fun s' => _disposed s' = true)); [|done].
      intros s' r Hs'. by rewrite disposed_createClient.
  - left. split.
    + apply (preserved_iter (fun s' => clientsMap s' = clientsMap s)); [|done].
      intros s' Hs'. by rewrite clientsMap_folders_changed.
    + intros Hd.
      apply (preserved_iter (fun s' => _disposed s' = true)); [|done].
      intros s' Hs'. by rewrite disposed_folders_changed.
  - case_bool_decide as Hp; [|by left].
    set (s0 := set_pending (remove_first r0 (pending s)) s).
    destruct (_disposed s) eqn:Hd.
    + left.
      pose proof (core_createClient_fulfilled_disposed r0 client s0 Hd) as Hc.
      unfold core in Hc. by injection Hc as _ -> -> _.
    + right. exists r0, client.
      pose proof (core_createClient_fulfilled_live r0 client s0 Hd) as Hc.
      unfold core in Hc. by injection Hc as _ -> -> _.
  - left. by case_bool_decide.
  - left. unfold waitClient. by case_match.
  - left. pose proof (frame_createFileSystemWatcher cfg s) as [_ Hm Hd _ _ _ _].
    rewrite Hm, Hd. done.
  - left. case_bool_decide; [|done].
    pose proof (frame_listen_subscribed w d
                  (set_sub_pending (remove_first (w, c) (sub_pending s)) s))
      as [_ Hm Hd _ _ _ _].
    rewrite Hm, Hd. done.
  - left. by case_bool_decide.
  - left. by destruct (heap s !! w).
  - left. pose proof (frame_watcher_dispose w s) as [_ Hm Hd _ _ _ _].
    rewrite Hm, Hd. done.
  - by left.
Qed.

Lemma trace_grows op s : ∃ effs, trace (step op s) = trace s ++ effs.
Proof.
  destruct (ev_trace _ _ (evolves_step op s)) as (effs & Ht & _). by exists effs.
Qed.

(** *** Waiters *)

Lemma waiters_listen w c s : waiters (listen w c s) = waiters s.
Proof. unfold listen. by destruct (heap s !! w). Qed.

Lemma waiters_createClient r s : waiters (createClient r s) = waiters s.
Proof.
  unfold createClient. destruct (watchmanPath s); [|done]. by destruct (_ || _).
Qed.

Lemma waiters_folders_changed added removed s :
  waiters (folders_changed added removed s) = waiters s.
Proof.
  unfold folders_changed.
  apply (preserved_foldl (fun s' => waiters s' = waiters s)).
  - intros s' r Hs'. by destruct (clientsMap s' !! r) as [[c|]|].
  - apply (preserved_foldl (fun s' => waiters s' = waiters s)); [|done].
    intros s' r Hs'. by rewrite waiters_createClient.
Qed.

Lemma waiters_createClient_fulfilled r client s :
  waiters (createClient_fulfilled r client s)
  = if _disposed s then waiters s
    else (List.filter (fun l => negb (bool_decide (l.2 = r)))
            <$> _onDidCreateClient s, next_waiter s).
Proof.
  unfold createClient_fulfilled. simpl.
  destruct (_disposed s); [destruct client; reflexivity|].
  set (s2 := set_clientsMap _ _).
  set (s3 := match client with Some c => _ | None => s2 end).
  assert (waiters s3 = waiters s) as Hw.
  { unfold s3. destruct client as [c|]; [|done].
    apply (preserved_foldl (fun s' => waiters s' = waiters s)); [|done].
    intros s' w Hs'. by rewrite waiters_listen. }
  unfold waiters in *. injection Hw as He Hn.
  unfold fire_created. rewrite He.
  destruct (_onDidCreateClient s) as [ls|]; simpl; by rewrite ?He, Hn.
Qed.

Lemma waiters_createFileSystemWatcher cfg s :
  waiters (createFileSystemWatcher cfg s) = waiters s.
Proof.
  unfold createFileSystemWatcher.
  set (s1 := set_heap _ s). set (s2 := foldl _ s1 _).
  assert (waiters s2 = waiters s) as Hw.
  { apply (preserved_foldl (fun s' => waiters s' = waiters s)); [|done].
    intros s' c Hs'. by rewrite waiters_listen. }
  exact Hw.
Qed.

(** What a step does to the emitter and to the counter. *)
Lemma waiters_step op s :
  waiters (step op s)
  = match op with
    | WaitClient r =>
        (if has_client r s then _onDidCreateClient s
         else emitter_on (next_waiter s, r) (_onDidCreateClient s),
         S (next_waiter s))
    | ClientCreated r c =>
        if bool_decide (r ∈ pending s) && negb (_disposed s)
        then (List.filter (fun l => negb (bool_decide (l.2 = r)))
                <$> _onDidCreateClient s, next_waiter s)
        else waiters s
    | Dispose => (None, next_waiter s)
    | _ => waiters s
    end.
Proof.
  destruct op as [ch folders|added removed|r0 client|r0 msg|r0|cfg
                 |w c d|w c msg|w st l|w|]; cbn [step].
  - unfold attach.
    set (s1 := set_channel _ s). set (s2 := foldl _ s1 _).
    assert (waiters s2 = waiters s) as Hw; [|exact Hw].
    apply (preserved_foldl (fun s' => waiters s' = waiters s)); [|done].
    intros s' r Hs'. by rewrite waiters_createClient.
  - apply (preserved_iter (fun s' => waiters s' = waiters s)); [|done].
    intros s' Hs'. by rewrite waiters_folders_changed.
  - case_bool_decide as Hp; [|done].
    rewrite waiters_createClient_fulfilled. cbn [_disposed set_pending].
    by destruct (_disposed s).
  - by case_bool_decide.
  - unfold waitClient, has_client. simpl. by case_bool_decide.
  - apply waiters_createFileSystemWatcher.
  - case_bool_decide; [|done]. unfold listen_subscribed. simpl.
    destruct (heap s !! w) as [fw|]; [|done]. by destruct (fw_disposed fw).
  - by case_bool_decide.
  - by destruct (heap s !! w).
  - unfold watcher_dispose. by destruct (heap s !! w).
  - done.
Qed.

Lemma next_waiter_step op s : next_waiter s ≤ next_waiter (step op s).
Proof.
  pose proof (f_equal snd (waiters_step op s)) as Hn.
  change (snd (waiters (step op s))) with (next_waiter (step op s)) in Hn.
  rewrite Hn. destruct op; cbn [snd waiters]; try lia.
  destruct (_ && _); cbn [snd waiters]; lia.
Qed.

(** A listener stays installed until the client of its root arrives at a
    live manager, or the manager is disposed. *)
Lemma listeners_kept op s l :
  l ∈ emitter_listeners (_onDidCreateClient s) →
  l ∈ emitter_listeners (_onDidCreateClient (step op s))
  ∨ op = Dispose
  ∨ ∃ c, op = ClientCreated l.2 c ∧ l.2 ∈ pending s ∧ _disposed s = false.
Proof.
  intros Hl.
  pose proof (f_equal fst (waiters_step op s)) as He.
  change (fst (waiters (step op s))) with (_onDidCreateClient (step op s)) in He.
  rewrite He. clear He.
  destruct op as [ch folders|added removed|r0 client|r0 msg|r0|cfg
                 |w c d|w c msg|w st l0|w|]; cbn [fst waiters];
    try (by left); [| |by right; left].
  - case_bool_decide as Hp; [|by left].
    destruct (_disposed s) eqn:Hd; [by left|]. cbn [negb andb fst].
    destruct (decide (l.2 = r0)) as [<-|Hne].
    + right; right. by exists client.
    + left. destruct (_onDidCreateClient s) as [ls|]; [|done]. simpl in *.
      apply list_elem_of_In, List.filter_In. split; [by apply list_elem_of_In|].
      by rewrite bool_decide_eq_false_2.
  - left. destruct (has_client r0 s); [done|].
    unfold emitter_on. simpl. apply elem_of_app. by left.
Qed.

(** The only new listener is the one of a [waitClient] call. *)
Lemma listeners_new op s l :
  l ∈ emitter_listeners (_onDidCreateClient (step op s)) →
  l ∈ emitter_listeners (_onDidCreateClient s)
  ∨ ∃ r, op = WaitClient r ∧ l = (next_waiter s, r).
Proof.
  pose proof (f_equal fst (waiters_step op s)) as He.
  change (fst (waiters (step op s))) with (_onDidCreateClient (step op s)) in He.
  rewrite He. clear He.
  destruct op as [ch folders|added removed|r0 client|r0 msg|r0|cfg
                 |w c d|w c msg|w st l0|w|]; cbn [fst waiters];
    try (by left).
  - destruct (_ && _); cbn [fst waiters]; [|by left].
    destruct (_onDidCreateClient s) as [ls|]; [|by left]. simpl.
    intros [Hl _]%list_elem_of_In%List.filter_In. left. by apply list_elem_of_In.
  - destruct (has_client r0 s); [by left|].
    unfold emitter_on. simpl. intros [Hl|Hl%list_elem_of_singleton]%elem_of_app.
    + by left.
    + right. by exists r0.
  - simpl. by intros ?%elem_of_nil.
Qed.

(** The arrival of the client of a root at a live manager resolves the
    promises whose listeners are installed for that root. *)
Lemma fulfilment_resolves s id r client :
  (id, r) ∈ emitter_listeners (_onDidCreateClient s) →
  r ∈ pending s → _disposed s = false →
  WaitResolved id r ∈ trace (step (ClientCreated r client) s).
Proof.
  intros Hl Hp Hd. simpl.
  rewrite (bool_decide_eq_true_2 _ Hp).
  destruct (trace_createClient_fulfilled_live r client
              (set_pending (remove_first r (pending s)) s) Hd)
    as (subs & _ & ->).
  simpl. apply elem_of_app. right. apply elem_of_app. right.
  apply list_elem_of_fmap. exists (id, r). split; [done|].
  apply list_elem_of_In, List.filter_In. split; [by apply list_elem_of_In|].
  by apply bool_decide_eq_true.
Qed.

Lemma Waiting_step op s id r : Waiting id r s → Waiting id r (step op s).
Proof.
  intros [Hres|(Hnone & Hor)].
  { left. destruct (trace_grows op s) as (effs & ->).
    apply elem_of_app. by left. }
  destruct (clientsMap_step op s)
    as [[Hm Hdd]|(r' & c & -> & Hp & Hd & Hd' & Hm)].
  - destruct Hor as [Hd|Hl].
    { right. split; [by rewrite Hm|]. left. by apply Hdd. }
    destruct (listeners_kept op s _ Hl) as [Hl'|[->|(c & -> & Hp & Hd)]].
    + right. split; [by rewrite Hm|by right].
    + right. split; [by rewrite Hm|by left].
    + left. by apply fulfilment_resolves.
  - destruct Hor as [Hd0|Hl]; [congruence|].
    destruct (decide (r' = r)) as [->|Hne].
    { left. by apply fulfilment_resolves. }
    right. split; [by rewrite Hm, lookup_insert_ne|]. right.
    destruct (listeners_kept (ClientCreated r' c) s _ Hl)
      as [Hl'|[[=]|(c' & [= <- _] & _)]]; done.
Qed.

Lemma Waiting_run ops s id r : Waiting id r s → Waiting id r (run ops s).
Proof.
  intros Hw. apply (preserved_foldl (Waiting id r)); [|done].
  intros s' op Hs'. by apply Waiting_step.
Qed.

Lemma Waiting_waitClient s r :
  (clientsMap s !! r) = None → Waiting (next_waiter s) r (waitClient r s).
Proof.
  intros Hr. right. unfold waitClient, has_client. simpl.
  rewrite bool_decide_eq_false_2; [|rewrite Hr; by intros [? ?]].
  simpl. split; [done|]. right. apply elem_of_app. right. by left.
Qed.

(** A waiter whose root got its entry is resolved. *)
Lemma Waiting_mapped id r s :
  Waiting id r s → is_Some (clientsMap s !! r) → WaitResolved id r ∈ trace s.
Proof.
  intros [Hres|[Hnone _]] Hr; [done|]. rewrite Hnone in Hr. by destruct Hr.
Qed.

(** A step resolves a promise only as an immediate [waitClient] call or
    as the arrival of the client of the promise's root at a live
    manager. *)
Lemma resolution_cause s op id r :
  WaitResolved id r ∈ trace (step op s) → WaitResolved id r ∉ trace s →
  (op = WaitClient r ∧ is_Some (clientsMap s !! r) ∧ id = next_waiter s)
  ∨ ∃ client,
      op = ClientCreated r client ∧ r ∈ pending s ∧ _disposed s = false
      ∧ (id, r) ∈ emitter_listeners (_onDidCreateClient s).
Proof.
  intros Hin Hnot.
  assert (¬ quiet s (step op s)) as Hnq
    by (intros Hq; by apply Hnot, (quiet_elem _ _ _ _ Hq)).
  destruct op as [ch folders|added removed|r0 client|r0 msg|r0|cfg
                 |w c d|w c msg|w st l|w|]; simpl in *.
  - destruct Hnq. apply quiet_attach.
  - destruct Hnq. apply quiet_iter. intros. apply quiet_folders_changed.
  - right. case_bool_decide as Hp; [|done].
    destruct (_disposed s) eqn:Hd.
    { destruct Hnq. unfold createClient_fulfilled. simpl. rewrite Hd.
      destruct client.
      - eexists. split; [done|]. by repeat constructor.
      - eapply quiet_trans; [|apply frame_quiet, frame_on_error].
        by apply quiet_same. }
    destruct (trace_createClient_fulfilled_live r0 client
                (set_pending (remove_first r0 (pending s)) s) Hd)
      as (subs & Hi & Ht).
    rewrite Ht in Hin. simpl in Hin.
    apply elem_of_app in Hin as [Hin|Hin]; [done|].
    apply elem_of_app in Hin as [Hin|Hin].
    { rewrite Forall_forall in Hi. by specialize (Hi _ Hin). }
    apply list_elem_of_fmap in Hin as ([id' r'] & [= -> ->] & Hl).
    apply list_elem_of_In, List.filter_In in Hl as [Hl Heq].
    apply bool_decide_eq_true in Heq. simpl in Heq. subst r'.
    exists client. split_and!; try done. by apply list_elem_of_In.
  - destruct Hnq. case_bool_decide; [|by apply quiet_same].
    eapply quiet_trans; [|apply frame_quiet, frame_on_error].
    by apply quiet_same.
  - left. unfold waitClient, has_client in Hin. simpl in Hin.
    case_bool_decide as Hr; simpl in Hin; [|done].
    apply elem_of_app in Hin as [?|Hin]; [done|].
    by apply list_elem_of_singleton in Hin as [= -> ->].
  - destruct Hnq. apply frame_quiet, frame_createFileSystemWatcher.
  - destruct Hnq. case_bool_decide; [|by apply quiet_same].
    eapply quiet_trans; [|apply frame_quiet, frame_listen_subscribed].
    by apply quiet_same.
  - destruct Hnq. case_bool_decide; [|by apply quiet_same].
    eexists. split; [done|]. by repeat constructor.
  - destruct Hnq. destruct (heap s !! w); by apply quiet_same.
  - destruct Hnq. apply frame_quiet, frame_watcher_dispose.
  - destruct Hnq. apply quiet_dispose.
Qed.

Lemma Fresh_init path : Fresh (init path).
Proof. split; intros id r Hin; simpl in Hin; by apply elem_of_nil in Hin. Qed.

Lemma Fresh_step op s : Fresh s → Fresh (step op s).
Proof.
  intros [Ht Hl]. pose proof (next_waiter_step op s) as Hle. split.
  - intros id r Hin.
    destruct (decide (WaitResolved id r ∈ trace s)) as [Hold|Hnew].
    { specialize (Ht _ _ Hold). lia. }
    destruct (resolution_cause s op id r Hin Hnew)
      as [(-> & _ & ->)|(c & -> & _ & _ & Hlis)].
    + pose proof (f_equal snd (waiters_step (WaitClient r) s)) as Hn.
      simpl in Hn. simpl. rewrite Hn. lia.
    + specialize (Hl _ _ Hlis). lia.
  - intros id r Hin.
    destruct (listeners_new op s _ Hin) as [Hold|(r' & -> & [= -> ->])].
    + specialize (Hl _ _ Hold). lia.
    + pose proof (f_equal snd (waiters_step (WaitClient r') s)) as Hn.
      simpl in Hn. simpl. rewrite Hn. lia.
Qed.

Lemma Fresh_run ops s : Fresh s → Fresh (run ops s).
Proof.
  intros Hf. apply (preserved_foldl Fresh); [|done].
  intros s' op Hs'. by apply Fresh_step.
Qed.

(** C9.  [waitClient(root)] resolves at once when the map has an entry
    for the root; otherwise it only installs a listener and resolves
    nothing.  A step resolves a waiter only if it is such an immediate
    [waitClient] call, or the fulfilment of the request for exactly the
    waiter's root on a live manager; and that fulfilment does resolve
    every installed waiter of the root.  After the request for a root
    failed, no waiter for that root is ever resolved.

    End to end: the listener that [waitClient] installs for an unmapped
    root is in the callback list of the emitter; on every run that
    follows the call, the promise is resolved as soon as the map holds an
    entry for the root, and the arrival of the root's client at a live
    manager resolves it, whatever happened in between.  On a run of a
    manager the promise of a call is new: nothing resolved it before the
    call. *)
Theorem waitClient_resolution :
  (∀ s r, is_Some (clientsMap s !! r) →
     trace (waitClient r s) = trace s ++ [WaitResolved (next_waiter s) r]
     ∧ _onDidCreateClient (waitClient r s) = _onDidCreateClient s)
  ∧ (∀ s r, clientsMap s !! r = None →
       trace (waitClient r s) = trace s
       ∧ _onDidCreateClient (waitClient r s)
         = emitter_on (next_waiter s, r) (_onDidCreateClient s))
  ∧ (∀ s op id r,
       WaitResolved id r ∈ trace (step op s) → WaitResolved id r ∉ trace s →
       (op = WaitClient r ∧ is_Some (clientsMap s !! r) ∧ id = next_waiter s)
       ∨ ∃ client,
           op = ClientCreated r client ∧ r ∈ pending s ∧ _disposed s = false
           ∧ (id, r) ∈ emitter_listeners (_onDidCreateClient s))
  ∧ (∀ s id r client,
       (id, r) ∈ emitter_listeners (_onDidCreateClient s) →
       r ∈ pending s → _disposed s = false →
       WaitResolved id r ∈ trace (step (ClientCreated r client) s))
  ∧ (∀ path ops0 r msg ops1 id,
       r ∈ pending (run ops0 (init path)) →
       WaitResolved id r
       ∉ trace (run ops1 (step (ClientFailed r msg) (run ops0 (init path)))))
  ∧ (∀ s r, clientsMap s !! r = None →
       emitter_listeners (_onDidCreateClient (waitClient r s))
       = emitter_listeners (_onDidCreateClient s) ++ [(next_waiter s, r)])
  ∧ (∀ s r ops, clientsMap s !! r = None →
       is_Some (clientsMap (run ops (waitClient r s)) !! r) →
       WaitResolved (next_waiter s) r ∈ trace (run ops (waitClient r s)))
  ∧ (∀ s r ops client, clientsMap s !! r = None →
       r ∈ pending (run ops (waitClient r s)) →
       _disposed (run ops (waitClient r s)) = false →
       WaitResolved (next_waiter s) r
       ∈ trace (step (ClientCreated r client) (run ops (waitClient r s))))
  ∧ (∀ path ops r,
       WaitResolved (next_waiter (run ops (init path))) r
       ∉ trace (run ops (init path))).
Proof.
  split_and!.
  - intros s r Hr. unfold waitClient, has_client. simpl.
    by rewrite (bool_decide_eq_true_2 _ Hr).
  - intros s r Hr. unfold waitClient, has_client. simpl.
    rewrite bool_decide_eq_false_2; [done|]. rewrite Hr. by intros [? ?].
  - apply resolution_cause.
  - apply fulfilment_resolves.
  - intros path ops0 r msg ops1 id Hp Hin.
    destruct (Stuck_run r ops1 _ (failed_root_is_stuck path ops0 r msg Hp))
      as [Hnone _].
    assert (is_Some (clientsMap
              (run ops1 (step (ClientFailed r msg) (run ops0 (init path)))) !! r))
      as [x Hx].
    { apply (resolved_are_mapped (init path) _ id r); [|done|exact Hin].
      eapply evolves_trans; [apply evolves_run|].
      eapply evolves_trans; [apply evolves_step|apply evolves_run]. }
    congruence.
  - intros s r Hr. unfold waitClient, has_client. simpl.
    rewrite bool_decide_eq_false_2; [done|]. rewrite Hr. by intros [? ?].
  - intros s r ops Hr Hmapped.
    apply Waiting_mapped; [|done]. by apply Waiting_run, Waiting_waitClient.
  - intros s r ops client Hr Hp Hd.
    destruct (Waiting_run ops _ _ _ (Waiting_waitClient s r Hr))
      as [Hres|(_ & [Hd'|Hl])].
    + destruct (trace_grows (ClientCreated r client) (run ops (waitClient r s)))
        as (effs & ->).
      apply elem_of_app. by left.
    + congruence.
    + by apply fulfilment_resolves.
  - intros path ops r Hin.
    destruct (Fresh_run ops _ (Fresh_init path)) as [Ht _].
    specialize (Ht _ _ Hin). lia.
Qed.

(** ** Watchers *)

Lemma deliver_after_dispose `{Collaborators} fw change l ev :
  (l, ev) ∈ deliver (fw_dispose fw) change →
  ∃ uri, ev = DidDelete uri ∧ l ∈ emitter_listeners (_onDidDelete fw).
Proof.
  unfold deliver. intros Hin.
  apply list_elem_of_In, in_flat_map in Hin as (ev' & _ & Hin).
  apply list_elem_of_In, list_elem_of_fmap in Hin as (l' & [= -> ->] & Hl).
  destruct ev'; simpl in Hl; try by apply elem_of_nil in Hl.
  by exists uri.
Qed.

Lemma watcher_dispose_registry w s : w ∉ watchers (watcher_dispose w s) ∨ heap s !! w = None.
Proof.
  unfold watcher_dispose. destruct (heap s !! w) as [fw|]; [left|by right].
  simpl. intros Hin%list_elem_of_In%List.filter_In.
  destruct Hin as [_ Hneq]. by rewrite Nat.eqb_refl in Hneq.
Qed.

(** C4 on [disposed_watcher_world].  After [dispose()] the watcher has
    left the static set and [_onDidCreate], [_onDidChange] and
    [_onDidRename] are disposed, but [_onDidDelete] still holds its
    listener: a batch handed to the subscription callback afterwards
    reaches it with a delete event. *)
Theorem dispose_leaves_delete_stream :
  watchers disposed_watcher_world = []
  ∧ (_onDidCreate <$> heap disposed_watcher_world !! 0) = Some None
  ∧ (_onDidChange <$> heap disposed_watcher_world !! 0) = Some None
  ∧ (_onDidRename <$> heap disposed_watcher_world !! 0) = Some None
  ∧ (_onDidDelete <$> heap disposed_watcher_world !! 0) = Some (Some [7])
  ∧ ((fun fw => @deliver sample fw
        {| root := "/r";
           files := [gone "a.txt" 10 1; fresh_file "b.txt" 10 1] |})
       <$> heap disposed_watcher_world !! 0)
    = Some [(7, DidDelete "/r/a.txt")].
Proof. vm_compute. done. Qed.

(** ** Concrete runs *)

(** C3 on [failed_world].  The request for "/r" failed: the error was
    logged to the logger and to the channel, nothing is stored for the
    root and the factory was asked only once, but "/r" is still in the set
    of roots being created, and a further request for it is swallowed. *)
Theorem failed_root_still_marked :
  "/r" ∈ creatingRoots failed_world
  ∧ ¬ ("/r" ∈ pending failed_world)
  ∧ (clientsMap failed_world !! "/r") = None
  ∧ trace failed_world
    = [CallCreateClient "watchman" "/r"; LoggerError "ENOENT";
       ChannelAppendLine "out" "Error on create watchman client:ENOENT"]
  ∧ createClient "/r" failed_world = failed_world.
Proof.
  assert ("/r" ∈ creatingRoots failed_world) as Hin
    by (apply (bool_decide_unpack _); vm_compute; exact I).
  split_and!.
  - exact Hin.
  - vm_compute. by intros ?%elem_of_nil.
  - apply (bool_decide_unpack _). vm_compute. exact I.
  - vm_compute. reflexivity.
  - apply createClient_blocked. right; left. exact Hin.
Qed.

Lemma creation_failure_keeps_mark_witness :
  "/r" ∈ pending (run [Attach "out" ["/r"]] (init (Some "watchman")))
  ∧ ∀ ops1,
      clientsMap
        (run ops1 (step (ClientFailed "/r" "ENOENT")
                     (run [Attach "out" ["/r"]] (init (Some "watchman")))))
      !! "/r" = None.
Proof.
  assert ("/r" ∈ pending (run [Attach "out" ["/r"]] (init (Some "watchman"))))
    as Hp by (vm_compute; left).
  split; [exact Hp|].
  intros ops1.
  destruct (creation_failure_keeps_mark (Some "watchman")
              [Attach "out" ["/r"]] "/r" "ENOENT" Hp)
    as (_ & _ & _ & _ & Hnever).
  exact (proj1 (Hnever ops1)).
Defined.

(** C5, as stated, fails on a manager without watchman path: three
    requests for a root ask the factory zero times. *)
Lemma no_watchman_path_no_factory_call :
  factory_calls "/r" (Nat.iter 3 (createClient "/r") (init None)) = 0
  ∧ trace (Nat.iter 3 (createClient "/r") (init None)) = [].
Proof. split; vm_compute; reflexivity. Qed.

Lemma creation_dedup_witness :
  factory_calls "/r" (Nat.iter 3 (createClient "/r") (init (Some "watchman")))
  = S (factory_calls "/r" (init (Some "watchman"))).
Proof.
  destruct (creation_dedup (init (Some "watchman")) "/r" 2) as [_ Hfresh].
  destruct (Hfresh "watchman") as (_ & Hcalls & _).
  - reflexivity.
  - apply not_elem_of_empty.
  - apply lookup_empty.
  - exact Hcalls.
Defined.

Lemma late_client_is_discarded_witness :
  trace (step (ClientCreated "/r" (Some 1))
           (run [Attach "out" ["/r"]; Dispose] (init (Some "watchman"))))
  = trace (run [Attach "out" ["/r"]; Dispose] (init (Some "watchman")))
    ++ [ClientDispose 1].
Proof.
  destruct (late_client_is_discarded
              (run [Attach "out" ["/r"]; Dispose] (init (Some "watchman")))
              "/r" 1) as (Htrace & _).
  - reflexivity.
  - vm_compute. left.
  - exact Htrace.
Defined.

Lemma waitClient_resolution_witness :
  (WaitResolved 0 "/r"
   ∉ trace (run [ChangeWorkspaceFolders ["/r"] []; WaitClient "/r"]
              (step (ClientFailed "/r" "ENOENT")
                 (run [WaitClient "/r"; Attach "out" ["/r"]]
                    (init (Some "watchman"))))))
  ∧ WaitResolved 0 "/r"
    ∈ trace (run [WaitClient "/q"; ClientCreated "/r" (Some 1)]
               (waitClient "/r"
                  (run [Attach "out" ["/r"; "/q"]] (init (Some "watchman")))))
  ∧ WaitResolved 0 "/r"
    ∈ trace (step (ClientCreated "/r" None)
               (run [WaitClient "/q"; ClientCreated "/q" (Some 2)]
                  (waitClient "/r"
                     (run [Attach "out" ["/r"; "/q"]]
                        (init (Some "watchman")))))).
Proof.
  destruct waitClient_resolution
    as (_ & _ & _ & _ & Hnever & _ & Hlater & Hsignal & _).
  split_and!.
  - apply Hnever. vm_compute. left.
  - apply (Hlater (run [Attach "out" ["/r"; "/q"]] (init (Some "watchman")))
             "/r" [WaitClient "/q"; ClientCreated "/r" (Some 1)]).
    + vm_compute. reflexivity.
    + vm_compute. by eexists.
  - apply (Hsignal (run [Attach "out" ["/r"; "/q"]] (init (Some "watchman")))
             "/r" [WaitClient "/q"; ClientCreated "/q" (Some 2)] None).
    + vm_compute. reflexivity.
    + vm_compute. left.
    + vm_compute. reflexivity.
Defined.

Lemma map_entries_are_permanent_witness :
  factory_calls "/r"
    (run [ChangeWorkspaceFolders [] ["/r"]; ChangeWorkspaceFolders ["/r"] []]
       (run [Attach "out" ["/r"]; ClientCreated "/r" (Some 1)]
          (init (Some "watchman"))))
  = factory_calls "/r"
      (run [Attach "out" ["/r"]; ClientCreated "/r" (Some 1)]
         (init (Some "watchman"))).
Proof.
  destruct (map_entries_are_permanent
              (run [Attach "out" ["/r"]; ClientCreated "/r" (Some 1)]
                 (init (Some "watchman")))
              "/r"
              [ChangeWorkspaceFolders [] ["/r"]; ChangeWorkspaceFolders ["/r"] []])
    as (_ & _ & _ & _ & Hcalls & _).
  - exists (Some 1). vm_compute. reflexivity.
  - exact Hcalls.
Defined.

(** A root that is removed and added again gets no second client. *)
Example removed_and_added_again :
  trace (run [Attach "out" ["/r"]; ClientCreated "/r" (Some 1);
              ChangeWorkspaceFolders [] ["/r"];
              ChangeWorkspaceFolders ["/r"] []; WaitClient "/r"]
           (init (Some "watchman")))
  = [CallCreateClient "watchman" "/r"; ClientDispose 1; WaitResolved 0 "/r"].
Proof. vm_compute. reflexivity. Qed.

(** A watcher created after the client of a root exists subscribes to it
    at once. *)
Example late_created_watcher :
  trace (run [Attach "out" ["/r"]; ClientCreated "/r" (Some 1);
              CreateFileSystemWatcher watch_all]
           (init (Some "watchman")))
  = [CallCreateClient "watchman" "/r"; ClientSubscribe 1 0 "**"].
Proof. vm_compute. reflexivity. Qed.

(** * Further properties of the code *)

(** ** More on the reconciliation callback *)

Section ReconcileMore.
Context {collab : Collaborators}.

Lemma fire_file_rename_cases root (kept : list FileChangeItem) ev :
  ev ∈ fire_file_rename root kept →
  ∃ a b, kept = [a; b] ∧ exists_ a = false ∧ exists_ b = true
         ∧ size a = size b
         ∧ ev = DidRename (file_uri root (name a)) (file_uri root (name b)).
Proof.
  unfold fire_file_rename.
  destruct kept as [|a [|b [|? ?]]]; try by intros ?%elem_of_nil.
  destruct (exists_ a) eqn:Ha, (exists_ b) eqn:Hb; simpl;
    try by intros ?%elem_of_nil.
  destruct (N.eqb_spec (size a) (size b)) as [Hsz|Hsz];
    [|by intros ?%elem_of_nil].
  intros ->%list_elem_of_singleton. by exists a, b.
Qed.

Lemma fire_folder_rename_cases root (kept : list FileChangeItem) ev :
  ev ∈ fire_folder_rename root kept →
  ∃ a b, a ∈ kept ∧ b ∈ kept ∧ exists_ a = false ∧ exists_ b = true
         ∧ size a = size b ∧ mtime_ms a = mtime_ms b
         ∧ ev = DidRename (file_uri root (name a)) (file_uri root (name b)).
Proof.
  unfold fire_folder_rename.
  destruct (Nat.leb 2 (length kept)); [|by intros ?%elem_of_nil].
  rewrite splitArray_filter.
  destruct (Nat.eqb _ _); [|by intros ?%elem_of_nil].
  intros Hin. apply list_elem_of_In, in_flat_map in Hin as (a & Ha & Hin).
  apply List.filter_In in Ha as [Ha Hea].
  destruct (List.find (same_stamp a) _) as [b|] eqn:Hfind; [|done].
  apply List.find_some in Hfind as [Hb Hs].
  apply List.filter_In in Hb as [Hb Heb].
  apply same_stamp_true in Hs as [Hsz Hmt].
  destruct Hin as [<-|[]].
  exists a, b. split_and!; try done.
  - by apply list_elem_of_In.
  - by apply list_elem_of_In.
  - by destruct (exists_ a).
  - by destruct (exists_ b).
Qed.

(** X1.  Within one batch every create, change and delete event is fired
    before the first rename event. *)
Theorem record_events_precede_renames w c :
  onChange w c = record_events (onChange w c) ++ renames (onChange w c).
Proof.
  rewrite record_events_onChange, renames_onChange. reflexivity.
Qed.

(** X2.  A batch fires a rename only if at least two records are kept
    and as many of them vanished as appeared: otherwise the run consists
    of the per-record events alone. *)
Theorem unbalanced_batch_has_no_rename w c :
  let kept := List.filter (keep (globPattern w)) (files c) in
  length kept < 2
  ∨ length (List.filter (fun o => negb (exists_ o)) kept)
    ≠ length (List.filter exists_ kept) →
  onChange w c = omap (classify w (root c)) kept.
Proof.
  intros kept Hun. unfold onChange. fold kept.
  rewrite fire_records_classify.
  assert (fire_file_rename (root c) kept = []) as ->.
  { destruct (fire_file_rename (root c) kept) as [|ev evs] eqn:Hf; [done|].
    destruct (fire_file_rename_cases (root c) kept ev)
      as (a & b & Hk & Ha & Hb & _); [rewrite Hf; left|].
    rewrite Hk in Hun. simpl in Hun. rewrite Ha, Hb in Hun. simpl in Hun.
    destruct Hun; [lia|done]. }
  assert (fire_folder_rename (root c) kept = []) as ->.
  { unfold fire_folder_rename. destruct Hun as [Hlt|Hne].
    - destruct (Nat.leb_spec 2 (length kept)); [lia|done].
    - destruct (Nat.leb 2 (length kept)); [|done].
      rewrite splitArray_filter.
      erewrite (List.filter_ext (fun x => negb (negb (exists_ x))) exists_);
        [|intros; apply negb_involutive].
      by apply Nat.eqb_neq in Hne as ->. }
  by rewrite !app_nil_r.
Qed.

(** X3.  Both sides of every rename event come from the kept records of
    the batch: the old side from one that vanished, the new side from one
    that appeared, and the two have the same size.  Unless exactly two
    records are kept, they also have the same modification time. *)
Theorem rename_sides_come_from_the_batch w c o n :
  DidRename o n ∈ onChange w c →
  let kept := List.filter (keep (globPattern w)) (files c) in
  ∃ a b, a ∈ kept ∧ b ∈ kept
         ∧ exists_ a = false ∧ exists_ b = true
         ∧ size a = size b
         ∧ o = file_uri (root c) (name a) ∧ n = file_uri (root c) (name b)
         ∧ (length kept ≠ 2 → mtime_ms a = mtime_ms b).
Proof.
  intros Hin kept. unfold onChange in Hin. fold kept in Hin.
  apply elem_of_app in Hin as [Hin|Hin].
  { pose proof (fire_records_no_rename w (root c) kept) as Hno.
    rewrite Forall_forall in Hno. by specialize (Hno _ Hin). }
  apply elem_of_app in Hin as [Hin|Hin].
  - apply fire_file_rename_cases in Hin
      as (a & b & Hk & Ha & Hb & Hsz & [= -> ->]).
    exists a, b. rewrite Hk. split_and!; try done.
    + left.
    + right. left.
  - apply fire_folder_rename_cases in Hin
      as (a & b & Ha & Hb & Hea & Heb & Hsz & Hmt & [= -> ->]).
    exists a, b. split_and!; done.
Qed.

Lemma take_first_find v (avail : list FileChangeItem) :
  match take_first v avail with
  | Some (a, avail') =>
      List.find (same_stamp v) avail = Some a
      ∧ ∀ v', stamp v' ≠ stamp v →
          List.find (same_stamp v') avail' = List.find (same_stamp v') avail
  | None => List.find (same_stamp v) avail = None
  end.
Proof.
  induction avail as [|a l IH]; [done|].
  cbn [take_first List.find].
  change ((size a =? size v)%N && (mtime_ms a =? mtime_ms v)%N)
    with (same_stamp v a).
  destruct (same_stamp v a) eqn:Hs.
  - split; [done|]. intros v' Hne.
    destruct (same_stamp v' a) eqn:Hs'; [|done].
    apply same_stamp_true in Hs as [? ?]. apply same_stamp_true in Hs' as [? ?].
    destruct Hne. unfold stamp. congruence.
  - destruct (take_first v l) as [[m rest]|]; [|done].
    destruct IH as [Hf Hrest]. split; [done|].
    intros v' Hne. cbn [List.find]. by rewrite (Hrest v' Hne).
Qed.

Lemma match_unused_find root (vs appeared avail : list FileChangeItem) :
  NoDup (stamp <$> vs) →
  (∀ v, v ∈ vs →
     List.find (same_stamp v) avail = List.find (same_stamp v) appeared) →
  flat_map (fun oldFile =>
              match List.find (same_stamp oldFile) appeared with
              | Some newFile =>
                  [DidRename (file_uri root (name oldFile))
                             (file_uri root (name newFile))]
              | None => []
              end) vs
  = match_unused root vs avail.
Proof.
  revert avail. induction vs as [|v vs IH]; intros avail Hnd Hsame; [done|].
  apply NoDup_cons in Hnd as [Hv Hnd]. simpl.
  rewrite <- (Hsame v) by left.
  pose proof (take_first_find v avail) as Htf.
  destruct (take_first v avail) as [[a avail']|].
  - destruct Htf as [-> Hrest]. simpl. f_equal.
    apply IH; [done|]. intros v' Hv'.
    rewrite Hrest.
    + apply Hsame. by right.
    + intros Heq. apply Hv. rewrite <- Heq. by apply list_elem_of_fmap_2.
  - rewrite Htf. simpl. apply IH; [done|].
    intros v' Hv'. apply Hsame. by right.
Qed.

(** X4.  When no two vanished records of a batch share size and
    modification time, the renames of the run are those of the pairwise
    block followed by the one-to-one matching in which every appeared
    record is handed out at most once. *)
Theorem distinct_stamps_match_one_to_one w c :
  let kept := List.filter (keep (globPattern w)) (files c) in
  NoDup (stamp <$> List.filter (fun o => negb (exists_ o)) kept) →
  renames (onChange w c)
  = pairwise_rename (root c) kept ++ batch_rename_spec (root c) kept.
Proof.
  intros kept Hnd. rewrite renames_onChange. fold kept.
  rewrite fire_file_rename_pairwise. f_equal.
  unfold fire_folder_rename, batch_rename_spec.
  destruct (Nat.leb 2 (length kept)); [|done]. simpl.
  rewrite splitArray_filter.
  erewrite (List.filter_ext (fun x => negb (negb (exists_ x))) exists_);
    [|intros; apply negb_involutive].
  destruct (Nat.eqb _ _); [|done].
  by apply match_unused_find.
Qed.

(** X5.  The pairwise block looks at the order of the two records: when
    the record that appeared comes first and the one that vanished second,
    and their modification times differ, no rename is fired even though
    the sizes agree. *)
Theorem appeared_first_is_no_rename w c a b :
  List.filter (keep (globPattern w)) (files c) = [b; a] →
  exists_ a = false → exists_ b = true → size a = size b →
  mtime_ms a ≠ mtime_ms b →
  renames (onChange w c) = [].
Proof.
  intros Hkept Ha Hb Hsz Hmt. rewrite renames_onChange, Hkept.
  unfold fire_file_rename, fire_folder_rename, same_stamp.
  simpl. rewrite Ha, Hb. simpl.
  destruct (N.eqb_spec (mtime_ms b) (mtime_ms a)) as [Heq|Hne]; [done|].
  by rewrite andb_false_r.
Qed.

End ReconcileMore.

Lemma unbalanced_batch_has_no_rename_witness :
  @onChange sample watch_all
    {| root := "/r";
       files := [gone "x" 5 100; gone "y" 5 100; fresh_file "p" 5 100] |}
  = [DidDelete "/r/x"; DidDelete "/r/y"; DidCreate "/r/p"].
Proof.
  apply (@unbalanced_batch_has_no_rename sample watch_all
           {| root := "/r";
              files := [gone "x" 5 100; gone "y" 5 100; fresh_file "p" 5 100] |}).
  right. vm_compute. lia.
Defined.

Lemma rename_sides_come_from_the_batch_witness :
  ∃ a b, a ∈ files twin_batch ∧ b ∈ files twin_batch
         ∧ exists_ a = false ∧ exists_ b = true
         ∧ size a = size b
         ∧ "/r/y" = sample_uri "/r" (name a) ∧ "/r/p" = sample_uri "/r" (name b)
         ∧ (length (files twin_batch) ≠ 2 → mtime_ms a = mtime_ms b).
Proof.
  apply (@rename_sides_come_from_the_batch sample watch_all twin_batch
           "/r/y" "/r/p").
  vm_compute. do 5 right. left.
Defined.

Lemma distinct_stamps_match_one_to_one_witness :
  renames (@onChange sample watch_all
    {| root := "/r";
       files := [gone "x" 5 100; gone "y" 7 200;
                 fresh_file "p" 7 200; fresh_file "q" 5 100] |})
  = [] ++ [DidRename "/r/x" "/r/q"; DidRename "/r/y" "/r/p"].
Proof.
  apply (@distinct_stamps_match_one_to_one sample watch_all
           {| root := "/r";
              files := [gone "x" 5 100; gone "y" 7 200;
                        fresh_file "p" 7 200; fresh_file "q" 5 100] |}).
  apply (bool_decide_unpack _). vm_compute. exact I.
Defined.

Lemma appeared_first_is_no_rename_witness :
  renames (@onChange sample watch_all
    {| root := "/r"; files := [fresh_file "b.txt" 10 2; gone "a.txt" 10 1] |})
  = [].
Proof.
  apply (@appeared_first_is_no_rename sample watch_all
           {| root := "/r";
              files := [fresh_file "b.txt" 10 2; gone "a.txt" 10 1] |}
           (gone "a.txt" 10 1) (fresh_file "b.txt" 10 2));
    [reflexivity..|]. simpl. lia.
Defined.

(** ** More on the manager *)

(** *** How often the factory is asked *)

Lemma factory_calls_frame r s s' :
  frame s s' → factory_calls r s' = factory_calls r s.
Proof.
  intros [_ _ _ _ _ _ (effs & Ht & Hi)]. unfold factory_calls.
  rewrite Ht, List.filter_app, length_app.
  rewrite (filter_none _ effs); [simpl; lia|].
  eapply Forall_impl; [exact Hi|]. by intros [].
Qed.

Lemma Calls_core s s' :
  core s' = core s → (∀ r, factory_calls r s' = factory_calls r s) →
  Calls s → Calls s'.
Proof.
  unfold core, Calls. intros [= Hc Hm Hd Hp] Hf.
  rewrite Hc, Hm, Hd, Hp. intros [H1 H2]. split.
  - intros r. rewrite Hf. apply H1.
  - intros Hlive r. rewrite Hf. by apply H2.
Qed.

Lemma Calls_frame s s' : frame s s' → Calls s → Calls s'.
Proof.
  intros Hfr. apply Calls_core; [by apply core_frame|].
  intros r. by apply factory_calls_frame.
Qed.

Lemma Calls_init path : Calls (init path).
Proof.
  split; simpl.
  - intros r [?%elem_of_nil|[x Hx]]; [done|]. by rewrite lookup_empty in Hx.
  - intros _ r. unfold factory_calls. simpl. split; [lia|done].
Qed.

Lemma Calls_createClient r' s : Calls s → Calls (createClient r' s).
Proof.
  intros [H1 H2].
  destruct (decide (watchmanPath s = None ∨ r' ∈ creatingRoots s
                    ∨ is_Some (clientsMap s !! r'))) as [Hb|Hfresh].
  { by rewrite createClient_blocked. }
  destruct (watchmanPath s) as [path|] eqn:Hpath; [|destruct Hfresh; by left].
  assert (r' ∉ creatingRoots s) as Hc by (intros ?; apply Hfresh; auto).
  assert (clientsMap s !! r' = None) as Hm.
  { apply eq_None_not_Some. intros ?; apply Hfresh; auto. }
  rewrite (createClient_fresh r' s path Hpath Hc Hm).
  assert (∀ r, factory_calls r
                 (emit [CallCreateClient path r']
                    (set_pending (pending s ++ [r'])
                       (set_creatingRoots (creatingRoots s ∪ {[r']}) s)))
               = factory_calls r s + (if decide (r' = r) then 1 else 0)) as Hf.
  { intros r. rewrite factory_calls_app. unfold factory_calls. simpl.
    destruct (decide (r' = r)) as [->|Hne].
    - by rewrite bool_decide_eq_true_2.
    - by rewrite bool_decide_eq_false_2. }
  split; simpl.
  - intros r Hr. rewrite Hf.
    destruct (decide (r' = r)) as [->|Hne]; [lia|].
    assert (1 ≤ factory_calls r s); [|lia]. apply H1.
    destruct Hr as [[?| ->%list_elem_of_singleton]%elem_of_app|?]; auto.
    done.
  - intros Hlive r. rewrite Hf. destruct (H2 Hlive r) as [Hle Hone].
    destruct (decide (r' = r)) as [->|Hne].
    + assert (factory_calls r s = 0) as ->.
      { destruct (decide (factory_calls r s = 1)) as [H|H]; [|lia].
        destruct (Hone H) as [?|?]; [done|].
        destruct Hfresh. auto. }
      split; [lia|]. intros _. left. apply elem_of_union_r.
      by apply elem_of_singleton.
    + rewrite Nat.add_0_r. split; [done|].
      intros [?|?]%Hone; [left|by right]. by apply elem_of_union_l.
Qed.

Lemma factory_calls_createClient_fulfilled r r' client s :
  factory_calls r (createClient_fulfilled r' client s) = factory_calls r s.
Proof.
  destruct (_disposed s) eqn:Hd.
  - unfold createClient_fulfilled. simpl. rewrite Hd.
    destruct client as [c|].
    + by rewrite factory_calls_app.
    + unfold on_error. rewrite factory_calls_app. simpl.
      by destruct (channel s).
  - destruct (trace_createClient_fulfilled_live r' client s Hd)
      as (subs & Hi & Ht).
    unfold factory_calls. rewrite Ht, !List.filter_app, !length_app.
    rewrite (filter_none _ subs).
    + rewrite (filter_none _ (_ <$> _)); [simpl; lia|].
      by apply Forall_fmap, Forall_forall.
    + eapply Forall_impl; [exact Hi|]. by intros [].
Qed.

Lemma factory_calls_folders_removed r removed s :
  factory_calls r
    (foldl (fun s root =>
              match clientsMap s !! root with
              | Some (Some client) => emit [ClientDispose client] s
              | _ => s
              end) s removed)
  = factory_calls r s.
Proof.
  revert s. induction removed as [|x l IH]; intros s; simpl; [done|].
  rewrite IH. destruct (clientsMap s !! x) as [[c|]|]; try done.
  by rewrite factory_calls_app.
Qed.

Lemma Calls_folders_changed added removed s :
  Calls s → Calls (folders_changed added removed s).
Proof.
  intros Hs. unfold folders_changed.
  apply preserved_foldl.
  - intros s' r Hs'. destruct (clientsMap s' !! r) as [[c|]|]; try done.
    eapply Calls_frame; [|done]. apply frame_emit. by repeat constructor.
  - apply preserved_foldl; [|done]. intros. by apply Calls_createClient.
Qed.

Lemma Calls_step op s : Calls s → Calls (step op s).
Proof.
  intros Hs.
  destruct op as [ch folders|added removed|r0 client|r0 msg|r0|cfg
                 |w c d|w c msg|w st l|w|]; simpl.
  - unfold attach. eapply Calls_core; [reflexivity|done|].
    apply (preserved_foldl Calls); [intros; by apply Calls_createClient|].
    eapply Calls_core; [| |exact Hs]; done.
  - apply preserved_iter; [|done]. intros. by apply Calls_folders_changed.
  - case_bool_decide as Hp; [|done].
    set (s0 := set_pending (remove_first r0 (pending s)) s).
    destruct Hs as [H1 H2].
    assert (∀ r, factory_calls r (createClient_fulfilled r0 client s0)
                 = factory_calls r s) as Hf
      by (intros r; by rewrite factory_calls_createClient_fulfilled).
    destruct (_disposed s) eqn:Hd.
    + pose proof (core_createClient_fulfilled_disposed r0 client s0 Hd) as Hc.
      unfold Calls. unfold core in Hc. simpl in Hc.
      injection Hc as -> -> -> ->. split; [|done].
      intros r Hr. rewrite Hf. apply H1.
      destruct Hr as [?%remove_first_elem|?]; auto.
    + pose proof (core_createClient_fulfilled_live r0 client s0 Hd) as Hc.
      unfold Calls. unfold core in Hc. simpl in Hc.
      injection Hc as -> -> -> ->. split.
      * intros r Hr. rewrite Hf. apply H1.
        destruct Hr as [?%remove_first_elem|[x Hx]]; [auto|].
        destruct (decide (r0 = r)) as [->|Hne]; [auto|].
        rewrite lookup_insert_ne in Hx by done. right. by eexists.
      * intros _ r. rewrite Hf. destruct (H2 eq_refl r) as [Hle Hone].
        split; [done|]. intros Hr.
        destruct (decide (r0 = r)) as [->|Hne].
        { right. rewrite lookup_insert_eq. by eexists. }
        destruct (Hone Hr) as [?|?].
        -- left. apply elem_of_difference. split; [done|].
           by intros ?%elem_of_singleton.
        -- right. by rewrite lookup_insert_ne.
  - case_bool_decide as Hp; [|done].
    eapply Calls_frame; [apply frame_on_error|].
    destruct Hs as [H1 H2]. split; simpl; [|done].
    intros r [?%remove_first_elem|?]; apply H1; auto.
  - eapply Calls_core; [| |exact Hs].
    + unfold waitClient. by case_match.
    + intros r. unfold waitClient. case_match; [|done].
      by rewrite factory_calls_app.
  - eapply Calls_frame; [apply frame_createFileSystemWatcher|done].
  - case_bool_decide; [|done].
    eapply Calls_frame; [apply frame_listen_subscribed|done].
  - case_bool_decide; [|done].
    eapply Calls_frame; [apply frame_emit; by repeat constructor|done].
  - by destruct (heap s !! w).
  - eapply Calls_frame; [apply frame_watcher_dispose|done].
  - destruct Hs as [H1 H2]. split; simpl; [|done].
    intros r Hr. specialize (H1 r Hr). unfold factory_calls in *. simpl.
    rewrite List.filter_app, length_app. lia.
Qed.

Lemma Calls_run ops s : Calls s → Calls (run ops s).
Proof. apply preserved_foldl. intros. by apply Calls_step. Qed.

(** X6.  On every run of a manager: a root with an unsettled request has
    no entry in the map; and while the manager is not disposed, no root
    has two unsettled requests and every root with an unsettled request
    is marked as being created. *)
Theorem requests_in_flight_are_unique path ops :
  (∀ r, r ∈ pending (run ops (init path)) →
        clientsMap (run ops (init path)) !! r = None)
  ∧ (_disposed (run ops (init path)) = false →
     NoDup (pending (run ops (init path)))
     ∧ ∀ r, r ∈ pending (run ops (init path)) →
            r ∈ creatingRoots (run ops (init path))).
Proof. apply Inv_run, Inv_init. Qed.

(** X7.  On every run of a manager that is not disposed at its end, the
    factory was asked for each root at most once; and on every run, a
    root with an entry in the map was asked for at least once. *)
Theorem factory_asked_once_per_root path ops r :
  (_disposed (run ops (init path)) = false →
   factory_calls r (run ops (init path)) ≤ 1)
  ∧ (is_Some (clientsMap (run ops (init path)) !! r) →
     1 ≤ factory_calls r (run ops (init path))).
Proof.
  destruct (Calls_run ops (init path) (Calls_init path)) as [H1 H2]. split.
  - intros Hd. by apply H2.
  - intros Hr. apply H1. by right.
Qed.

Lemma factory_asked_once_per_root_witness :
  factory_calls "/r"
    (run [Attach "out" ["/r"; "/r"]; ClientFailed "/r" "ENOENT";
          ChangeWorkspaceFolders ["/r"] []; Attach "out" ["/r"]]
       (init (Some "watchman"))) ≤ 1.
Proof.
  apply (proj1 (factory_asked_once_per_root (Some "watchman")
                  [Attach "out" ["/r"; "/r"]; ClientFailed "/r" "ENOENT";
                   ChangeWorkspaceFolders ["/r"] []; Attach "out" ["/r"]]
                  "/r")).
  vm_compute. reflexivity.
Defined.

(** *** Watchers and the static set *)

Lemma wside_foldl {A} (f : World → A → World) (l : list A) s :
  (∀ s x, wside (f s x) = wside s) → wside (foldl f s l) = wside s.
Proof.
  intros Hf. revert s. induction l as [|x l IH]; intros s; simpl; [done|].
  by rewrite IH, Hf.
Qed.

Lemma wside_listen w c s : wside (listen w c s) = wside s.
Proof. unfold listen. by destruct (heap s !! w). Qed.

Lemma wside_createClient r s : wside (createClient r s) = wside s.
Proof.
  unfold createClient. destruct (watchmanPath s); [|done]. by destruct (_ || _).
Qed.

Lemma wside_folders_changed added removed s :
  wside (folders_changed added removed s) = wside s.
Proof.
  unfold folders_changed. rewrite wside_foldl.
  - apply wside_foldl. intros. apply wside_createClient.
  - intros s' r. by destruct (clientsMap s' !! r) as [[c|]|].
Qed.

Lemma wside_createClient_fulfilled r client s :
  wside (createClient_fulfilled r client s) = wside s.
Proof.
  unfold createClient_fulfilled. simpl. destruct (_disposed s).
  - by destruct client.
  - unfold fire_created.
    set (s3 := match client with Some c => _ | None => _ end).
    assert (wside s3 = wside s) as H3.
    { unfold s3. destruct client as [c|]; [|done].
      rewrite wside_foldl; [done|]. intros. apply wside_listen. }
    by destruct (_onDidCreateClient s3).
Qed.

Lemma wside_step op s :
  match op with
  | CreateFileSystemWatcher _ | Subscribed _ _ _ | AddListener _ _ _
  | DisposeWatcher _ => True
  | _ => wside (step op s) = wside s
  end.
Proof.
  destruct op as [ch folders|added removed|r0 client|r0 msg|r0|cfg
                 |w c d|w c msg|w st l|w|]; simpl; try done.
  - unfold attach.
    change (wside (foldl (fun s root => createClient root s)
                     (set_channel (Some ch) s) folders) = wside s).
    rewrite wside_foldl; [done|]. intros. apply wside_createClient.
  - generalize (disposables s). intros n.
    induction n as [|n IH]; simpl; [done|].
    by rewrite wside_folders_changed.
  - case_bool_decide; [|done]. by rewrite wside_createClient_fulfilled.
  - by case_bool_decide.
  - unfold waitClient. by case_match.
  - by case_bool_decide.
Qed.

Lemma Registry_wside s s' : wside s' = wside s → Registry s → Registry s'.
Proof. unfold wside, Registry. intros [= -> ->]. done. Qed.

Lemma Registry_init path : Registry (init path).
Proof.
  split_and!; simpl.
  - constructor.
  - intros w. split; [by intros ?%elem_of_nil|]. by intros (fw & ? & _).
  - done.
Qed.

(** Replacing the object of watcher [w] by one with the same flag. *)
Lemma Registry_update w fw fw' s :
  heap s !! w = Some fw →
  fw_disposed fw' = fw_disposed fw →
  (fw_disposed fw' = true → fw_disposables fw' = []) →
  Registry s → Registry (set_heap (<[w:=fw']> (heap s)) s).
Proof.
  intros Hw Hflag Hdisp (Hnd & Hiff & Hnone).
  pose proof (lookup_lt_Some _ _ _ Hw) as Hlt.
  split_and!; simpl.
  - done.
  - intros w'. rewrite Hiff. destruct (decide (w' = w)) as [->|Hne].
    + rewrite list_lookup_insert_eq by done. split.
      * intros (fw0 & Hfw0 & Hd0). exists fw'. split; [done|]. congruence.
      * intros (fw0 & [= <-] & Hd0). exists fw. split; [done|]. congruence.
    + by rewrite list_lookup_insert_ne.
  - intros w' fw0. destruct (decide (w' = w)) as [->|Hne].
    + rewrite list_lookup_insert_eq by done. intros [= <-]. done.
    + rewrite list_lookup_insert_ne by done. apply Hnone.
Qed.

Lemma Registry_step op s : Registry s → Registry (step op s).
Proof.
  intros Hs. pose proof (wside_step op s) as Hside.
  destruct op as [ch folders|added removed|r0 client|r0 msg|r0|cfg
                 |w c d|w c msg|w st l|w|];
    try by (eapply Registry_wside; [exact Hside|done]).
  - (* createFileSystemWatcher *)
    destruct Hs as (Hnd & Hiff & Hnone). simpl.
    unfold createFileSystemWatcher.
    set (s1 := set_heap _ s).
    set (s2 := foldl _ s1 _).
    assert (wside s2 = wside s1) as [= Hw2 Hh2]
      by (apply wside_foldl; intros; apply wside_listen).
    assert (length (heap s) ∉ watchers s) as Hfresh.
    { intros (fw & Hfw & _)%Hiff. apply lookup_lt_Some in Hfw. lia. }
    unfold set_add. rewrite Hw2. simpl.
    rewrite (bool_decide_eq_false_2 _ Hfresh).
    split_and!; simpl.
    + apply NoDup_app. split_and!; [done| |apply NoDup_singleton].
      intros w' Hw' ->%list_elem_of_singleton. done.
    + intros w'. rewrite Hh2. simpl. rewrite elem_of_app, Hiff.
      rewrite list_elem_of_singleton. split.
      * intros [(fw & Hfw & Hd)| ->].
        -- exists fw. split; [|done]. by apply lookup_app_l_Some.
        -- exists (new_FileSystemWatcher cfg). split; [|done].
           rewrite lookup_app_r, Nat.sub_diag by lia. done.
      * intros (fw & Hfw & Hd).
        destruct (decide (w' < length (heap s))) as [Hlt|Hge].
        -- left. exists fw. split; [|done].
           by rewrite lookup_app_l in Hfw.
        -- right. apply lookup_lt_Some in Hfw.
           rewrite length_app in Hfw. simpl in Hfw. lia.
    + intros w' fw. rewrite Hh2. simpl. intros Hfw Hd.
      destruct (decide (w' < length (heap s))) as [Hlt|Hge].
      * rewrite lookup_app_l in Hfw by done. by eapply Hnone.
      * rewrite lookup_app_r in Hfw by lia.
        destruct (w' - length (heap s)); simpl in Hfw; [|done].
        injection Hfw as <-. done.
  - (* the subscription is there *)
    simpl. case_bool_decide; [|done].
    unfold listen_subscribed. simpl.
    destruct (heap s !! w) as [fw|] eqn:Hw; [|done].
    destruct (fw_disposed fw) eqn:Hd; [done|].
    apply (Registry_update w fw _
             (set_sub_pending (remove_first (w, c) (sub_pending s)) s));
      try done.
    simpl. congruence.
  - (* a listener is added *)
    simpl. destruct (heap s !! w) as [fw|] eqn:Hw; [|done].
    apply (Registry_update w fw _ s); try done.
    + by destruct st.
    + destruct st; simpl; destruct Hs as (_ & _ & Hnone); eauto.
  - (* dispose *)
    simpl. unfold watcher_dispose.
    destruct (heap s !! w) as [fw|] eqn:Hw; [|done].
    destruct Hs as (Hnd & Hiff & Hnone).
    pose proof (lookup_lt_Some _ _ _ Hw) as Hlt.
    split_and!; simpl.
    + apply NoDup_ListNoDup, List.NoDup_filter. by apply NoDup_ListNoDup.
    + intros w'. rewrite list_elem_of_In, List.filter_In, <- list_elem_of_In.
      rewrite Hiff. destruct (decide (w' = w)) as [->|Hne].
      * rewrite Nat.eqb_refl, list_lookup_insert_eq by done. split.
        -- by intros [_ ?].
        -- by intros (fw0 & [= <-] & ?).
      * rewrite list_lookup_insert_ne by done.
        apply Nat.eqb_neq in Hne as ->. simpl.
        split; [by intros [? _]|by intros ?].
    + intros w' fw0. destruct (decide (w' = w)) as [->|Hne].
      * rewrite list_lookup_insert_eq by done. by intros [= <-].
      * rewrite list_lookup_insert_ne by done. apply Hnone.
Qed.

Lemma Registry_run ops s : Registry s → Registry (run ops s).
Proof. apply preserved_foldl. intros. by apply Registry_step. Qed.

(** X8.  On every run, the static set [watchers] lists each watcher at
    most once and lists exactly the watchers that were created and not
    disposed; a disposed watcher keeps no subscription. *)
Theorem registry_holds_the_live_watchers path ops :
  NoDup (watchers (run ops (init path)))
  ∧ (∀ w, w ∈ watchers (run ops (init path)) ↔
          ∃ fw, heap (run ops (init path)) !! w = Some fw
                ∧ fw_disposed fw = false)
  ∧ (∀ w fw, heap (run ops (init path)) !! w = Some fw →
             fw_disposed fw = true → fw_disposables fw = []).
Proof. apply Registry_run, Registry_init. Qed.

(** *** Subscriptions *)

Lemma Held_step d w op s : Held d w s → Held d w (step op s).
Proof.
  intros [Hin|(fw & Hw & Hd)].
  { left. destruct (trace_grows op s) as (effs & ->).
    apply elem_of_app. by left. }
  pose proof (lookup_lt_Some _ _ _ Hw) as Hlt.
  pose proof (wside_step op s) as Hside.
  destruct op as [ch folders|added removed|r0 client|r0 msg|r0|cfg
                 |w' c d'|w' c msg|w' st l|w'|];
    try (right; exists fw; split; [|done]; rewrite <- Hw;
         exact (f_equal (fun p => p.2 !! w) Hside)).
  - right. exists fw. split; [|done]. simpl. unfold createFileSystemWatcher.
    set (s1 := set_heap _ s).
    set (s2 := foldl _ s1 _).
    assert (wside s2 = wside s1) as [= _ Hh2]
      by (apply wside_foldl; intros; apply wside_listen).
    simpl. rewrite Hh2. simpl. by apply lookup_app_l_Some.
  - right. simpl. case_bool_decide; [|by exists fw].
    unfold listen_subscribed. simpl.
    destruct (heap s !! w') as [fw'|] eqn:Hw'; [|by exists fw].
    destruct (fw_disposed fw'); [by exists fw|]. simpl.
    destruct (decide (w' = w)) as [->|Hne].
    + rewrite list_lookup_insert_eq by done. eexists. split; [done|].
      simpl. apply elem_of_app. left. congruence.
    + rewrite list_lookup_insert_ne by done. by exists fw.
  - right. simpl. destruct (heap s !! w') as [fw'|] eqn:Hw'; [|by exists fw].
    simpl. destruct (decide (w' = w)) as [->|Hne].
    + rewrite list_lookup_insert_eq by done. eexists. split; [done|].
      assert (fw' = fw) as -> by congruence. by destruct st.
    + rewrite list_lookup_insert_ne by done. by exists fw.
  - simpl. unfold watcher_dispose.
    destruct (heap s !! w') as [fw'|] eqn:Hw'; [|right; by exists fw].
    destruct (decide (w' = w)) as [->|Hne].
    + left. simpl. apply elem_of_app. right.
      assert (fw' = fw) as -> by congruence.
      unfold disposeAll. apply list_elem_of_fmap_2. by apply elem_of_reverse.
    + right. simpl. rewrite list_lookup_insert_ne by done. by exists fw.
Qed.

Lemma Held_run d w ops s : Held d w s → Held d w (run ops s).
Proof. apply preserved_foldl. intros. by apply Held_step. Qed.

(** X9.  A subscription handed to a watcher is never lost: whatever
    happens after the [subscribe] promise of a watcher was fulfilled with
    a disposable, once the watcher has been disposed the disposable has
    been disposed as well. *)
Theorem subscriptions_are_released s w c d ops :
  (w, c) ∈ sub_pending s → is_Some (heap s !! w) →
  SubscriptionDispose d
  ∈ trace (step (DisposeWatcher w) (run ops (step (Subscribed w c d) s))).
Proof.
  intros Hp [fw Hw].
  assert (Held d w (step (Subscribed w c d) s)) as Hheld.
  { simpl. rewrite (bool_decide_eq_true_2 _ Hp).
    unfold listen_subscribed. simpl. rewrite Hw.
    destruct (fw_disposed fw).
    - left. simpl. apply elem_of_app. right. by left.
    - right. simpl. exists (fw_push d fw). split.
      + apply list_lookup_insert_eq. by apply lookup_lt_Some in Hw.
      + simpl. apply elem_of_app. right. by left. }
  apply (Held_run d w ops) in Hheld.
  set (s1 := run ops (step (Subscribed w c d) s)) in *.
  destruct Hheld as [Hin|(fw' & Hw' & Hd)].
  - destruct (trace_grows (DisposeWatcher w) s1) as (effs & ->).
    apply elem_of_app. by left.
  - simpl. unfold watcher_dispose. rewrite Hw'. simpl.
    apply elem_of_app. right. unfold disposeAll.
    apply list_elem_of_fmap_2. by apply elem_of_reverse.
Qed.

Lemma foldl_listen_clients w fw (cs : list Watchman) s :
  heap s !! w = Some fw →
  trace (foldl (fun s client => listen w client s) s cs)
  = trace s ++ ((fun c => ClientSubscribe c w (globPattern (config fw))) <$> cs)
  ∧ sub_pending (foldl (fun s client => listen w client s) s cs)
    = sub_pending s ++ ((fun c => (w, c)) <$> cs)
  ∧ wside (foldl (fun s client => listen w client s) s cs) = wside s.
Proof.
  revert s. induction cs as [|c cs IH]; intros s Hw; simpl.
  - by rewrite !app_nil_r.
  - assert (listen w c s
            = emit [ClientSubscribe c w (globPattern (config fw))]
                (set_sub_pending (sub_pending s ++ [(w, c)]) s)) as Hl
      by (unfold listen; by rewrite Hw).
    destruct (IH (listen w c s)) as (Ht & Hp & Hs).
    { by rewrite Hl. }
    rewrite Ht, Hp, Hs, Hl. simpl. by rewrite <- !app_assoc.
Qed.

Lemma live_clients_stored order (m : gmap string (option Watchman)) c :
  c ∈ live_clients order m ↔ ∃ r, r ∈ order ∧ m !! r = Some (Some c).
Proof.
  unfold live_clients. rewrite list_elem_of_omap. split.
  - intros (r & Hr & Hc). exists r. split; [done|].
    destruct (m !! r) as [[c'|]|]; congruence.
  - intros (r & Hr & Hc). exists r. split; [done|]. by rewrite Hc.
Qed.

Lemma createFileSystemWatcher_spec cfg s :
  trace (createFileSystemWatcher cfg s)
  = trace s
    ++ ((fun c => ClientSubscribe c (length (heap s)) (globPattern cfg))
          <$> live_clients (clientsOrder s) (clientsMap s))
  ∧ sub_pending (createFileSystemWatcher cfg s)
    = sub_pending s
      ++ ((fun c => (length (heap s), c))
            <$> live_clients (clientsOrder s) (clientsMap s))
  ∧ heap (createFileSystemWatcher cfg s)
    = heap s ++ [new_FileSystemWatcher cfg]
  ∧ length (heap s) ∈ watchers (createFileSystemWatcher cfg s).
Proof.
  unfold createFileSystemWatcher.
  set (s1 := set_heap (heap s ++ [new_FileSystemWatcher cfg]) s).
  assert (heap s1 !! length (heap s) = Some (new_FileSystemWatcher cfg)) as Hw.
  { simpl. rewrite lookup_app_r, Nat.sub_diag by lia. done. }
  destruct (foldl_listen_clients (length (heap s)) _
              (live_clients (clientsOrder s1) (clientsMap s1)) s1 Hw)
    as (Ht & Hp & [= Hws Hh]).
  split_and!.
  - exact Ht.
  - exact Hp.
  - simpl. by rewrite Hh.
  - simpl. rewrite Hws. unfold set_add. simpl.
    case_bool_decide; [done|]. apply elem_of_app. right. by left.
Qed.

Lemma foldl_listen_watchers c (ws : list nat) s :
  (∀ w, w ∈ ws → is_Some (heap s !! w)) →
  trace (foldl (fun s w => listen w c s) s ws)
  = trace s ++ ((fun w => ClientSubscribe c w (pattern_of s w)) <$> ws)
  ∧ frame s (foldl (fun s w => listen w c s) s ws).
Proof.
  revert s. induction ws as [|w ws IH]; intros s Hws; simpl.
  - rewrite app_nil_r. split; [done|apply frame_refl].
  - destruct (Hws w) as [fw Hw]; [left|].
    assert (listen w c s
            = emit [ClientSubscribe c w (globPattern (config fw))]
                (set_sub_pending (sub_pending s ++ [(w, c)]) s)) as Hl
      by (unfold listen; by rewrite Hw).
    destruct (IH (listen w c s)) as (Ht & Hfr).
    { intros w' Hw'. rewrite Hl. simpl. apply Hws. by right. }
    split.
    + rewrite Ht, Hl. simpl. rewrite <- app_assoc. simpl.
      unfold pattern_of at 2. simpl. rewrite Hw. done.
    + eapply frame_trans; [apply frame_listen|exact Hfr].
Qed.

(** X11.  When the request for a root is fulfilled with a client on a
    manager that is not disposed, the root loses its mark, the client is
    stored, every watcher of the static set subscribes to it with its own
    glob pattern, in the order of the set, and then the waiters of the
    root are resolved; nothing else happens. *)
Theorem new_client_reaches_every_watcher path ops r c :
  r ∈ pending (run ops (init path)) →
  _disposed (run ops (init path)) = false →
  trace (step (ClientCreated r (Some c)) (run ops (init path)))
  = trace (run ops (init path))
    ++ ((fun w => ClientSubscribe c w (pattern_of (run ops (init path)) w))
          <$> watchers (run ops (init path)))
    ++ ((fun l => WaitResolved l.1 l.2)
          <$> List.filter (fun l => bool_decide (l.2 = r))
                (emitter_listeners (_onDidCreateClient (run ops (init path)))))
  ∧ clientsMap (step (ClientCreated r (Some c)) (run ops (init path)))
    = <[r:=Some c]> (clientsMap (run ops (init path)))
  ∧ creatingRoots (step (ClientCreated r (Some c)) (run ops (init path)))
    = creatingRoots (run ops (init path)) ∖ {[r]}.
Proof.
  set (s := run ops (init path)). intros Hp Hd.
  assert (Registry s) as (_ & Hiff & _) by apply Registry_run, Registry_init.
  simpl. rewrite (bool_decide_eq_true_2 _ Hp).
  set (s0 := set_pending (remove_first r (pending s)) s).
  pose proof (core_createClient_fulfilled_live r (Some c) s0 Hd) as Hcore.
  unfold core in Hcore. injection Hcore as Hcr Hmap _ _.
  split_and!; [|exact Hmap|exact Hcr].
  unfold createClient_fulfilled. simpl. rewrite Hd.
  set (s2 := set_clientsMap _ _).
  destruct (foldl_listen_watchers c (watchers s) s2) as (Ht & Hfr).
  { intros w (fw & Hw & _)%Hiff. by exists fw. }
  unfold fire_created. rewrite (fr_emitter _ _ Hfr). simpl.
  destruct (_onDidCreateClient s) as [ls|]; simpl.
  - rewrite Ht. simpl. by rewrite <- app_assoc.
  - rewrite Ht. simpl. by rewrite app_nil_r.
Qed.

(** X12.  Disposing a watcher twice is the same as disposing it once. *)
Theorem watcher_dispose_idempotent w s :
  watcher_dispose w (watcher_dispose w s) = watcher_dispose w s.
Proof.
  unfold watcher_dispose at 2 3.
  destruct (heap s !! w) as [fw|] eqn:Hw.
  - pose proof (lookup_lt_Some _ _ _ Hw) as Hlt.
    unfold watcher_dispose. simpl.
    rewrite list_lookup_insert_eq by done. simpl.
    unfold emit, set_trace, set_heap, set_watchers. simpl.
    rewrite app_nil_r, list_insert_insert_eq.
    f_equal.
    induction (watchers s) as [|x l IH]; simpl; [done|].
    destruct (Nat.eqb x w) eqn:Hx; simpl; [done|].
    by rewrite Hx, IH.
  - unfold watcher_dispose. by rewrite Hw.
Qed.

Lemma Silenced_watcher_dispose w s :
  is_Some (heap s !! w) → Silenced w (watcher_dispose w s).
Proof.
  intros [fw Hw]. exists (fw_dispose fw). split; [|done].
  unfold watcher_dispose. rewrite Hw. simpl.
  apply list_lookup_insert_eq. by apply lookup_lt_Some in Hw.
Qed.

Lemma Silenced_step w op s :
  resubscribes w op = false → Silenced w s → Silenced w (step op s).
Proof.
  intros Hop (fw & Hw & Hd & Hc & Hch & Hr).
  pose proof (lookup_lt_Some _ _ _ Hw) as Hlt.
  pose proof (wside_step op s) as Hside.
  destruct op as [ch folders|added removed|r0 client|r0 msg|r0|cfg
                 |w' c d'|w' c msg|w' st l|w'|];
    try (exists fw; split; [|done]; rewrite <- Hw;
         exact (f_equal (fun p => p.2 !! w) Hside)).
  - exists fw. split; [|done]. simpl. unfold createFileSystemWatcher.
    set (s1 := set_heap _ s).
    set (s2 := foldl _ s1 _).
    assert (wside s2 = wside s1) as [= _ Hh2]
      by (apply wside_foldl; intros; apply wside_listen).
    simpl. rewrite Hh2. simpl. by apply lookup_app_l_Some.
  - simpl. case_bool_decide; [|by exists fw].
    unfold listen_subscribed. simpl.
    destruct (heap s !! w') as [fw'|] eqn:Hw'; [|by exists fw].
    destruct (fw_disposed fw') eqn:Hd'; [by exists fw|]. simpl.
    destruct (decide (w' = w)) as [->|Hne]; [congruence|].
    exists fw. split; [|done]. simpl. by rewrite list_lookup_insert_ne.
  - simpl. destruct (heap s !! w') as [fw'|] eqn:Hw'; [|by exists fw]. simpl.
    destruct (decide (w' = w)) as [->|Hne].
    + assert (fw' = fw) as -> by congruence.
      exists (fw_on st l fw). split; [simpl; by apply list_lookup_insert_eq|].
      destruct st; simpl in Hop; try done;
        by rewrite Nat.eqb_refl in Hop.
    + exists fw. split; [|done]. simpl. by rewrite list_lookup_insert_ne.
  - simpl. destruct (decide (w' = w)) as [->|Hne].
    + apply Silenced_watcher_dispose. by exists fw.
    + exists fw. split; [|done]. unfold watcher_dispose.
      destruct (heap s !! w') as [fw'|]; [|done]. simpl.
      by rewrite list_lookup_insert_ne.
Qed.

Lemma Silenced_run w ops s :
  forallb (fun op => negb (resubscribes w op)) ops = true →
  Silenced w s → Silenced w (run ops s).
Proof.
  revert s. induction ops as [|op ops IH]; intros s Hops Hs; [done|].
  simpl in Hops. apply andb_true_iff in Hops as [Hop Hops].
  apply negb_true_iff in Hop.
  apply (IH (step op s)); [done|]. by apply Silenced_step.
Qed.

Section AfterDispose.
Context {collab : Collaborators}.

Lemma deliver_silenced fw change l ev :
  _onDidCreate fw = None → _onDidChange fw = None → _onDidRename fw = None →
  (l, ev) ∈ deliver fw change →
  ∃ uri, ev = DidDelete uri ∧ l ∈ emitter_listeners (_onDidDelete fw).
Proof.
  intros Hc Hch Hr. unfold deliver. intros Hin.
  apply list_elem_of_In, in_flat_map in Hin as (ev' & _ & Hin).
  apply list_elem_of_In, list_elem_of_fmap in Hin as (l' & [= -> ->] & Hl).
  destruct ev'; simpl in Hl; rewrite ?Hc, ?Hch, ?Hr in Hl;
    try by apply elem_of_nil in Hl.
  by exists uri.
Qed.

(** X13.  [dispose()] replaces the object of the watcher by the disposed
    one.  From then on, along every run in which nobody subscribes anew
    to the create, change or rename event of this watcher, the object
    stays disposed and a batch that still reaches its subscription
    callback is delivered to no listener of those three events: the only
    deliveries are delete events, to the listeners of [onDidDelete].
    (A listener added to one of the three events after [dispose()] gives
    the emitter a new callback list and is served again.) *)
Theorem disposed_watcher_is_silent_except_delete s w fw ops :
  heap s !! w = Some fw →
  forallb (fun op => negb (resubscribes w op)) ops = true →
  heap (step (DisposeWatcher w) s) !! w = Some (fw_dispose fw)
  ∧ is_Some (heap (run ops (step (DisposeWatcher w) s)) !! w)
  ∧ ∀ fw' change l ev,
      heap (run ops (step (DisposeWatcher w) s)) !! w = Some fw' →
      fw_disposed fw' = true
      ∧ ((l, ev) ∈ deliver fw' change →
         ∃ uri, ev = DidDelete uri
                ∧ l ∈ emitter_listeners (_onDidDelete fw')).
Proof.
  intros Hw Hops.
  assert (Silenced w (run ops (step (DisposeWatcher w) s)))
    as (fw0 & Hw0 & Hd & Hc & Hch & Hr).
  { apply Silenced_run; [done|]. apply Silenced_watcher_dispose. by exists fw. }
  split_and!.
  - simpl. unfold watcher_dispose. rewrite Hw. simpl.
    apply list_lookup_insert_eq. by apply lookup_lt_Some in Hw.
  - by exists fw0.
  - intros fw' change l ev Hw'. assert (fw' = fw0) as -> by congruence.
    split; [done|]. by apply deliver_silenced.
Qed.

End AfterDispose.

(** A listener subscribed to [onDidCreate] after [dispose()] is served:
    the emitter has a callback list again. *)
Example listener_added_after_dispose_is_served :
  (fun fw => @deliver sample fw lone_pair_batch)
    <$> heap (run [CreateFileSystemWatcher watch_all; DisposeWatcher 0;
                   AddListener 0 OnCreate 8]
                (init (Some "watchman"))) !! 0
  = Some [(8, DidCreate "/r/b.txt")].
Proof. vm_compute. reflexivity. Qed.

(** *** The map and the disposed flag *)

(** X14.  Disposal of the manager is final: on every run that follows,
    the manager stays disposed and its map stays as it was. *)
Theorem disposed_manager_is_frozen s ops :
  _disposed s = true →
  _disposed (run ops s) = true ∧ clientsMap (run ops s) = clientsMap s.
Proof.
  intros Hd.
  apply (preserved_foldl
           (fun s' => _disposed s' = true ∧ clientsMap s' = clientsMap s));
    [|done].
  intros s' op [Hd' Hm'].
  destruct (clientsMap_step op s') as [[Hm Hdd]|(r & c & _ & _ & Hlive & _)].
  - split; [auto|congruence].
  - congruence.
Qed.

(** X15.  On every run of a manager, the value stored for a root is
    never replaced: once the map holds a client (or null) for a root, it
    holds the same value after any further steps. *)
Theorem stored_client_is_never_replaced path ops0 ops1 r v :
  clientsMap (run ops0 (init path)) !! r = Some v →
  clientsMap (run ops1 (run ops0 (init path))) !! r = Some v.
Proof.
  intros Hr.
  assert (Inv (run ops0 (init path))) as Hinv by apply Inv_run, Inv_init.
  revert Hr Hinv. generalize (run ops0 (init path)). intros s Hr Hinv.
  apply (preserved_foldl
           (fun s' => Inv s' ∧ clientsMap s' !! r = Some v));
    [|done].
  intros s' op [Hinv' Hr']. split; [by apply Inv_step|].
  destruct (clientsMap_step op s') as [[Hm _]|(r' & c & _ & Hp & _ & _ & Hm)].
  - by rewrite Hm.
  - rewrite Hm. destruct Hinv' as [Hun _].
    rewrite lookup_insert_ne; [done|].
    intros ->. specialize (Hun _ Hp). congruence.
Qed.

(** *** The iteration order of the map *)

Lemma order_listen w c s : clientsOrder (listen w c s) = clientsOrder s.
Proof. unfold listen. by destruct (heap s !! w). Qed.

Lemma order_createClient r s :
  clientsOrder (createClient r s) = clientsOrder s.
Proof.
  unfold createClient. destruct (watchmanPath s); [|done]. by destruct (_ || _).
Qed.

Lemma order_folders_changed added removed s :
  clientsOrder (folders_changed added removed s) = clientsOrder s.
Proof.
  unfold folders_changed.
  apply (preserved_foldl (fun s' => clientsOrder s' = clientsOrder s)).
  - intros s' r Hs'. by destruct (clientsMap s' !! r) as [[c|]|].
  - apply (preserved_foldl (fun s' => clientsOrder s' = clientsOrder s));
      [|done].
    intros s' r Hs'. by rewrite order_createClient.
Qed.

Lemma order_fire_created r s :
  clientsOrder (fire_created r s) = clientsOrder s.
Proof. unfold fire_created. by destruct (_onDidCreateClient s). Qed.

Lemma order_createClient_fulfilled r client s :
  clientsOrder (createClient_fulfilled r client s)
  = if _disposed s then clientsOrder s else order_add r (clientsOrder s).
Proof.
  unfold createClient_fulfilled. cbn [_disposed set_creatingRoots].
  destruct (_disposed s).
  - by destruct client.
  - rewrite order_fire_created. destruct client as [c|]; [|done].
    apply (preserved_foldl
             (fun s' => clientsOrder s' = order_add r (clientsOrder s)));
      [|done].
    intros s' w Hs'. by rewrite order_listen.
Qed.

Lemma order_createFileSystemWatcher cfg s :
  clientsOrder (createFileSystemWatcher cfg s) = clientsOrder s.
Proof.
  unfold createFileSystemWatcher. cbn [clientsOrder set_watchers].
  apply (preserved_foldl (fun s' => clientsOrder s' = clientsOrder s)); [|done].
  intros s' c Hs'. by rewrite order_listen.
Qed.

(** The map and its iteration order change together, and by one kind of
    step only: the arrival of a requested client at a live manager. *)
Lemma map_order_step op s :
  (clientsMap (step op s) = clientsMap s
   ∧ clientsOrder (step op s) = clientsOrder s)
  ∨ ∃ r c, op = ClientCreated r c ∧ r ∈ pending s ∧ _disposed s = false
           ∧ clientsMap (step op s) = <[r:=c]> (clientsMap s)
           ∧ clientsOrder (step op s) = order_add r (clientsOrder s).
Proof.
  assert ((∀ r c, op ≠ ClientCreated r c) →
          clientsMap (step op s) = clientsMap s) as Hmap.
  { intros Hop.
    destruct (clientsMap_step op s) as [[Hm _]|(r & c & -> & _)]; [done|].
    by destruct (Hop r c). }
  destruct op as [ch folders|added removed|r0 client|r0 msg|r0|cfg
                 |w c d|w c msg|w st l|w|];
    try (left; split; [by apply Hmap|]); clear Hmap; cbn [step].
  - unfold attach. simpl.
    apply (preserved_foldl (fun s' => clientsOrder s' = clientsOrder s));
      [|done].
    intros s' r Hs'. by rewrite order_createClient.
  - apply (preserved_iter (fun s' => clientsOrder s' = clientsOrder s));
      [|done].
    intros s' Hs'. by rewrite order_folders_changed.
  - case_bool_decide as Hp; [|by left].
    set (s0 := set_pending (remove_first r0 (pending s)) s).
    pose proof (order_createClient_fulfilled r0 client s0) as Ho.
    cbn [s0 _disposed clientsOrder set_pending] in Ho.
    destruct (_disposed s) eqn:Hd.
    + left. split; [|done].
      pose proof (core_createClient_fulfilled_disposed r0 client s0 Hd) as Hc.
      unfold core in Hc. by injection Hc as _ -> _ _.
    + right. exists r0, client. split_and!; try done.
      pose proof (core_createClient_fulfilled_live r0 client s0 Hd) as Hc.
      unfold core in Hc. by injection Hc as _ -> _ _.
  - by case_bool_decide.
  - unfold waitClient. by case_match.
  - apply order_createFileSystemWatcher.
  - case_bool_decide; [|done]. unfold listen_subscribed. simpl.
    destruct (heap s !! w) as [fw|]; [|done]. by destruct (fw_disposed fw).
  - by case_bool_decide.
  - by destruct (heap s !! w).
  - unfold watcher_dispose. by destruct (heap s !! w).
  - done.
Qed.

Lemma Keys_init path : Keys (init path).
Proof.
  split; [constructor|]. intros r. simpl. rewrite lookup_empty. split.
  - by intros ?%elem_of_nil.
  - by intros [? ?].
Qed.

Lemma Keys_step op s : Keys s → Keys (step op s).
Proof.
  intros [Hnd Hiff].
  destruct (map_order_step op s)
    as [[Hm Ho]|(r & c & _ & _ & _ & Hm & Ho)];
    unfold Keys; rewrite Hm, Ho.
  - done.
  - unfold order_add. case_bool_decide as Hin; split.
    + done.
    + intros r'. destruct (decide (r' = r)) as [->|Hne].
      * rewrite lookup_insert_eq. split; [by eexists|done].
      * by rewrite lookup_insert_ne.
    + apply NoDup_app. split_and!; [done| |apply NoDup_singleton].
      intros r' Hr' ->%list_elem_of_singleton. done.
    + intros r'. rewrite elem_of_app, list_elem_of_singleton.
      destruct (decide (r' = r)) as [->|Hne].
      * rewrite lookup_insert_eq. split; [by eexists|by right].
      * rewrite lookup_insert_ne by done. rewrite Hiff. split; [|by left].
        by intros [?|?].
Qed.

Lemma Keys_run ops s : Keys s → Keys (run ops s).
Proof.
  intros Hk. apply (preserved_foldl Keys); [|done].
  intros s' op Hs'. by apply Keys_step.
Qed.

(** X10.  On every run of a manager, a watcher created through the
    manager is subscribed at once to the non-null clients of the map, one
    subscription per stored root, in the iteration order of the map, and
    joins the static set; every subscription is still to be settled.
    The iteration order lists each mapped root once, and a step either
    leaves it alone or stores a client for a root that was not mapped and
    puts that root last, so the clients are subscribed in the order in
    which their roots were stored. *)
Theorem new_watcher_listens_to_stored_clients path ops cfg :
  let s := run ops (init path) in
  let stored := live_clients (clientsOrder s) (clientsMap s) in
  trace (createFileSystemWatcher cfg s)
  = trace s
    ++ ((fun c => ClientSubscribe c (length (heap s)) (globPattern cfg))
          <$> stored)
  ∧ sub_pending (createFileSystemWatcher cfg s)
    = sub_pending s ++ ((fun c => (length (heap s), c)) <$> stored)
  ∧ heap (createFileSystemWatcher cfg s)
    = heap s ++ [new_FileSystemWatcher cfg]
  ∧ length (heap s) ∈ watchers (createFileSystemWatcher cfg s)
  ∧ NoDup (clientsOrder s)
  ∧ (∀ r, r ∈ clientsOrder s ↔ is_Some (clientsMap s !! r))
  ∧ (∀ c, c ∈ stored ↔ ∃ r, clientsMap s !! r = Some (Some c))
  ∧ (∀ op,
       (clientsMap (step op s) = clientsMap s
        ∧ clientsOrder (step op s) = clientsOrder s)
       ∨ ∃ r c, op = ClientCreated r c
                ∧ clientsMap s !! r = None
                ∧ clientsMap (step op s) = <[r:=c]> (clientsMap s)
                ∧ clientsOrder (step op s) = clientsOrder s ++ [r]).
Proof.
  intros s stored.
  assert (Keys s) as [Hnd Hkeys] by apply Keys_run, Keys_init.
  assert (Inv s) as [Hun _] by apply Inv_run, Inv_init.
  destruct (createFileSystemWatcher_spec cfg s) as (Ht & Hp & Hh & Hin).
  split_and!; try done.
  - intros c. unfold stored. rewrite live_clients_stored. split.
    + intros (r & _ & Hr). by exists r.
    + intros (r & Hr). exists r. split; [|done]. apply Hkeys. by rewrite Hr.
  - intros op.
    destruct (map_order_step op s)
      as [Hsame|(r & c & -> & Hpend & _ & Hm & Ho)]; [by left|].
    right. exists r, c. pose proof (Hun _ Hpend) as Hnone.
    split_and!; try done.
    rewrite Ho. unfold order_add. rewrite bool_decide_eq_false_2; [done|].
    intros Hr%Hkeys. rewrite Hnone in Hr. by destruct Hr.
Qed.

(** The clients of two roots stored as [/b], then [/a] are subscribed in
    that order by a watcher created later, and released in that order by
    [dispose()]. *)
Example stored_clients_are_visited_in_storing_order :
  trace (run [Attach "out" ["/a"; "/b"];
              ClientCreated "/b" (Some 1); ClientCreated "/a" (Some 2);
              CreateFileSystemWatcher watch_all; Dispose]
           (init (Some "watchman")))
  = [CallCreateClient "watchman" "/a"; CallCreateClient "watchman" "/b";
     ClientSubscribe 1 0 "**"; ClientSubscribe 2 0 "**";
     ClientDispose 1; ClientDispose 2].
Proof. vm_compute. reflexivity. Qed.

(** *** Attaching and workspace folders *)

Lemma path_createClient r s : watchmanPath (createClient r s) = watchmanPath s.
Proof.
  unfold createClient. destruct (watchmanPath s) eqn:Hp; [|done].
  by destruct (_ || _).
Qed.

Lemma foldl_createClient_spec path (folders : list string) s r :
  watchmanPath s = Some path →
  clientsMap (foldl (fun s root => createClient root s) s folders)
  = clientsMap s
  ∧ (r ∈ creatingRoots (foldl (fun s root => createClient root s) s folders)
     ↔ r ∈ creatingRoots s ∨ (r ∈ folders ∧ clientsMap s !! r = None))
  ∧ factory_calls r (foldl (fun s root => createClient root s) s folders)
    = factory_calls r s
      + (if bool_decide (r ∈ folders ∧ (r ∉ creatingRoots s)
                         ∧ (clientsMap s !! r) = None)
         then 1 else 0).
Proof.
  revert s. induction folders as [|x l IH]; intros s Hpath; cbn [foldl].
  - split_and!; [done| |].
    + split; [auto|]. intros [?|[?%elem_of_nil _]]; done.
    + rewrite bool_decide_eq_false_2; [lia|]. by intros [?%elem_of_nil _].
  - destruct (IH (createClient x s)) as (Hm & Hc & Hf);
      [by rewrite path_createClient|].
    rewrite Hm, Hc, Hf, !clientsMap_createClient. clear Hm Hc Hf IH.
    destruct (decide (watchmanPath s = None ∨ x ∈ creatingRoots s
                      ∨ is_Some (clientsMap s !! x))) as [Hb|Hfresh].
    + rewrite (createClient_blocked x s Hb).
      destruct Hb as [?|Hb]; [congruence|].
      assert (r = x → clientsMap s !! r = None → r ∈ creatingRoots s) as Hx.
      { intros -> Hn. destruct Hb as [?|[? ?]]; [done|congruence]. }
      split_and!; [done| |].
      * rewrite elem_of_cons. intuition.
      * erewrite bool_decide_ext; [reflexivity|].
        rewrite elem_of_cons. intuition.
    + assert (x ∉ creatingRoots s) as Hxc by (intros ?; apply Hfresh; auto).
      assert (clientsMap s !! x = None) as Hxm.
      { apply eq_None_not_Some. intros ?; apply Hfresh; auto. }
      rewrite (createClient_fresh x s path Hpath Hxc Hxm).
      rewrite factory_calls_app.
      change (factory_calls r
                (set_pending (pending s ++ [x])
                   (set_creatingRoots (creatingRoots s ∪ {[x]}) s)))
        with (factory_calls r s).
      simpl.
      split_and!; [done| |].
      * rewrite elem_of_union, elem_of_singleton, elem_of_cons.
        split; [|intuition].
        intros [[?| ->]|[? ?]]; auto.
      * destruct (decide (x = r)) as [->|Hne].
        -- rewrite (bool_decide_eq_true_2 (r = r)) by done. simpl.
           rewrite bool_decide_eq_false_2.
           ++ rewrite bool_decide_eq_true_2; [lia|]. split_and!; [left|done..].
           ++ intros (_ & Hn & _). apply Hn, elem_of_union_r.
              by apply elem_of_singleton.
        -- rewrite (bool_decide_eq_false_2 (x = r)) by done. simpl.
           rewrite Nat.add_0_r. erewrite bool_decide_ext; [reflexivity|].
           rewrite elem_of_union, elem_of_singleton, elem_of_cons.
           intuition congruence.
Qed.

(** X16.  On a manager with a watchman path, [attach] asks the factory
    once for every workspace folder that is neither marked nor mapped,
    however often the folder is listed, and for no other root; afterwards
    every listed folder without an entry is marked as being created, the
    map is as before, the channel is set and one more handler of folder
    changes is registered. *)
Theorem attach_requests_each_folder_once path ch folders s r :
  watchmanPath s = Some path →
  factory_calls r (attach ch folders s)
  = factory_calls r s
    + (if bool_decide (r ∈ folders ∧ (r ∉ creatingRoots s)
                       ∧ (clientsMap s !! r) = None)
       then 1 else 0)
  ∧ (r ∈ creatingRoots (attach ch folders s)
     ↔ r ∈ creatingRoots s ∨ (r ∈ folders ∧ clientsMap s !! r = None))
  ∧ clientsMap (attach ch folders s) = clientsMap s
  ∧ channel (attach ch folders s) = Some ch
  ∧ disposables (attach ch folders s) = S (disposables s).
Proof.
  intros Hpath. unfold attach.
  destruct (foldl_createClient_spec path folders (set_channel (Some ch) s) r)
    as (Hm & Hc & Hf); [done|].
  split_and!.
  - exact Hf.
  - exact Hc.
  - exact Hm.
  - simpl.
    apply (preserved_foldl (fun s' => channel s' = Some ch)); [|done].
    intros s' x Hs'. unfold createClient.
    destruct (watchmanPath s'); [|done]. by destruct (_ || _).
  - simpl. f_equal.
    apply (preserved_foldl (fun s' => disposables s' = disposables s)); [|done].
    intros s' x Hs'. unfold createClient.
    destruct (watchmanPath s'); [|done]. by destruct (_ || _).
Qed.

(** X17.  Removing workspace folders that have no client (no entry in
    the map, or the entry null) changes nothing, whatever the number of
    registered handlers. *)
Theorem removing_clientless_folders_is_a_no_op removed s :
  Forall (fun r => clientsMap s !! r = None ∨ clientsMap s !! r = Some None)
         removed →
  step (ChangeWorkspaceFolders [] removed) s = s.
Proof.
  intros Hall. simpl. apply iter_fixed.
  unfold folders_changed. simpl.
  induction Hall as [|r l Hr _ IH]; simpl; [done|].
  by destruct Hr as [-> | ->].
Qed.

(** *** Where subscriptions go *)

Lemma adds_only_same p s s' : trace s' = trace s → adds_only p s s'.
Proof. intros Ht. exists []. by rewrite app_nil_r. Qed.

Lemma adds_only_trans p s1 s2 s3 :
  adds_only p s1 s2 → adds_only p s2 s3 → adds_only p s1 s3.
Proof.
  intros (e1 & He1 & Hq1) (e2 & He2 & Hq2). exists (e1 ++ e2). split.
  - by rewrite He2, He1, app_assoc.
  - by apply Forall_app.
Qed.

Lemma adds_only_foldl {A} p (f : World → A → World) (l : list A) s :
  (∀ s x, adds_only p s (f s x)) → adds_only p s (foldl f s l).
Proof.
  intros Hf. revert s. induction l as [|x l IH]; intros s; simpl.
  - by apply adds_only_same.
  - eapply adds_only_trans; [apply Hf|apply IH].
Qed.

Lemma adds_only_iter p n (f : World → World) s :
  (∀ s, adds_only p s (f s)) → adds_only p s (Nat.iter n f s).
Proof.
  intros Hf. induction n as [|n IH]; simpl.
  - by apply adds_only_same.
  - eapply adds_only_trans; [apply IH|apply Hf].
Qed.

Lemma adds_only_elem p s s' e :
  adds_only p s s' → p e = false → e ∈ trace s' → e ∈ trace s.
Proof.
  intros (effs & -> & Hq) He [?|Hin]%elem_of_app; [done|].
  rewrite Forall_forall in Hq. specialize (Hq _ Hin). congruence.
Qed.

Lemma mute_createClient r s : adds_only no_subscribe s (createClient r s).
Proof.
  unfold createClient. destruct (watchmanPath s); [|by apply adds_only_same].
  destruct (_ || _); [by apply adds_only_same|].
  eexists. split; [done|]. by repeat constructor.
Qed.

Lemma mute_folders_changed added removed s :
  adds_only no_subscribe s (folders_changed added removed s).
Proof.
  unfold folders_changed.
  set (s1 := foldl _ s added).
  assert (adds_only no_subscribe s s1) as H1
    by (apply adds_only_foldl; intros; apply mute_createClient).
  eapply adds_only_trans; [exact H1|].
  apply adds_only_foldl. intros s' r.
  destruct (clientsMap s' !! r) as [[c|]|]; try by apply adds_only_same.
  eexists. split; [done|]. by repeat constructor.
Qed.

Lemma mute_on_error msg s : adds_only no_subscribe s (on_error msg s).
Proof.
  eexists. split; [done|]. destruct (channel s); by repeat constructor.
Qed.

(** The trace of a fulfilled request on a live manager whose static set
    holds existing watchers only. *)
Lemma trace_fulfilled_with_client r c s :
  (∀ w, w ∈ watchers s → is_Some (heap s !! w)) →
  _disposed s = false →
  trace (createClient_fulfilled r (Some c) s)
  = trace s
    ++ ((fun w => ClientSubscribe c w (pattern_of s w)) <$> watchers s)
    ++ ((fun l => WaitResolved l.1 l.2)
          <$> List.filter (fun l => bool_decide (l.2 = r))
                (emitter_listeners (_onDidCreateClient s))).
Proof.
  intros Hws Hd. unfold createClient_fulfilled. simpl. rewrite Hd.
  set (s2 := set_clientsMap _ _).
  destruct (foldl_listen_watchers c (watchers s) s2) as (Ht & Hfr).
  { intros w Hw. by apply Hws. }
  unfold fire_created. rewrite (fr_emitter _ _ Hfr). simpl.
  destruct (_onDidCreateClient s) as [ls|]; simpl.
  - rewrite Ht. simpl. by rewrite <- app_assoc.
  - rewrite Ht. simpl. by rewrite app_nil_r.
Qed.

(** The objects of the watchers keep their constructor arguments. *)
Lemma config_step op s w fw :
  heap s !! w = Some fw →
  ∃ fw', heap (step op s) !! w = Some fw' ∧ config fw' = config fw.
Proof.
  intros Hw. pose proof (lookup_lt_Some _ _ _ Hw) as Hlt.
  pose proof (wside_step op s) as Hside.
  destruct op as [ch folders|added removed|r0 client|r0 msg|r0|cfg
                 |w' c d'|w' c msg|w' st l|w'|];
    try (exists fw; split; [|done]; rewrite <- Hw;
         exact (f_equal (fun p => p.2 !! w) Hside)).
  - exists fw. split; [|done].
    change (step (CreateFileSystemWatcher cfg) s)
      with (createFileSystemWatcher cfg s).
    destruct (createFileSystemWatcher_spec cfg s) as (_ & _ & -> & _).
    by apply lookup_app_l_Some.
  - simpl. case_bool_decide; [|by exists fw].
    unfold listen_subscribed. simpl.
    destruct (heap s !! w') as [fw'|] eqn:Hw'; [|by exists fw].
    destruct (fw_disposed fw'); [by exists fw|]. simpl.
    destruct (decide (w' = w)) as [->|Hne].
    + rewrite list_lookup_insert_eq by done. eexists. split; [done|].
      simpl. congruence.
    + rewrite list_lookup_insert_ne by done. by exists fw.
  - simpl. destruct (heap s !! w') as [fw'|] eqn:Hw'; [|by exists fw].
    simpl. destruct (decide (w' = w)) as [->|Hne].
    + rewrite list_lookup_insert_eq by done. eexists. split; [done|].
      assert (fw' = fw) as -> by congruence. by destruct st.
    + rewrite list_lookup_insert_ne by done. by exists fw.
  - simpl. unfold watcher_dispose.
    destruct (heap s !! w') as [fw'|] eqn:Hw'; [|by exists fw].
    simpl. destruct (decide (w' = w)) as [->|Hne].
    + rewrite list_lookup_insert_eq by done. eexists. split; [done|].
      simpl. congruence.
    + rewrite list_lookup_insert_ne by done. by exists fw.
Qed.

(** The value the map holds for a root survives a step. *)
Lemma lookup_step op s r v :
  Inv s → clientsMap s !! r = Some v → clientsMap (step op s) !! r = Some v.
Proof.
  intros [Hun _] Hr.
  destruct (clientsMap_step op s) as [[Hm _]|(r' & c & _ & Hp & _ & _ & Hm)].
  - by rewrite Hm.
  - rewrite Hm, lookup_insert_ne; [done|].
    intros ->. specialize (Hun _ Hp). congruence.
Qed.

Lemma Subscriptions_step op s :
  Inv s → Registry s → Subscriptions s → Subscriptions (step op s).
Proof.
  intros Hinv Hreg Hsub c w g Hin.
  assert (ClientSubscribe c w g ∈ trace s →
          (∃ r, clientsMap (step op s) !! r = Some (Some c))
          ∧ (∃ fw, heap (step op s) !! w = Some fw
                   ∧ globPattern (config fw) = g)) as Hold.
  { intros Hin'. destruct (Hsub _ _ _ Hin') as [(r & Hr) (fw & Hw & Hg)]. split.
    - exists r. by apply lookup_step.
    - destruct (config_step op s w fw Hw) as (fw' & Hw' & Hc).
      exists fw'. split; [done|]. by rewrite Hc. }
  assert (adds_only no_subscribe s (step op s) →
          (∃ r, clientsMap (step op s) !! r = Some (Some c))
          ∧ (∃ fw, heap (step op s) !! w = Some fw
                   ∧ globPattern (config fw) = g)) as Hmute.
  { intros Hm. apply Hold. by apply (adds_only_elem _ _ _ _ Hm). }
  destruct Hreg as (_ & Hiff & _).
  destruct op as [ch folders|added removed|r0 client|r0 msg|r0|cfg
                 |w' c' d'|w' c' msg|w' st l|w'|].
  - apply Hmute. simpl. unfold attach.
    set (s1 := set_channel (Some ch) s).
    set (s2 := foldl _ s1 folders).
    assert (adds_only no_subscribe s1 s2) as H2
      by (apply adds_only_foldl; intros; apply mute_createClient).
    eapply adds_only_trans; [by apply (adds_only_same _ s s1)|].
    eapply adds_only_trans; [exact H2|]. by apply adds_only_same.
  - apply Hmute. simpl. apply adds_only_iter. intros. apply mute_folders_changed.
  - (* a request is fulfilled *)
    simpl in Hin, Hold, Hmute |- *.
    case_bool_decide as Hp; [|by apply Hold].
    set (s0 := set_pending (remove_first r0 (pending s)) s) in *.
    destruct (_disposed s) eqn:Hd.
    { apply Hmute. unfold createClient_fulfilled. simpl. rewrite Hd.
      destruct client.
      - eexists. split; [done|]. by repeat constructor.
      - eapply adds_only_trans; [|apply mute_on_error]. by apply adds_only_same. }
    destruct client as [c0|].
    + assert (∀ w0, w0 ∈ watchers s0 → is_Some (heap s0 !! w0)) as Hws.
      { intros w0 (fw & Hw & _)%Hiff. by exists fw. }
      rewrite (trace_fulfilled_with_client r0 c0 s0 Hws Hd) in Hin.
      apply elem_of_app in Hin as [Hin|Hin]; [by apply Hold|].
      apply elem_of_app in Hin as [Hin|Hin].
      * apply list_elem_of_fmap in Hin as (w0 & [= -> -> ->] & Hw0).
        pose proof (core_createClient_fulfilled_live r0 (Some c0) s0 Hd) as Hc.
        unfold core in Hc. injection Hc as _ Hm _ _.
        pose proof (wside_createClient_fulfilled r0 (Some c0) s0) as Hside.
        unfold wside in Hside. injection Hside as _ Hh.
        split.
        -- exists r0. rewrite Hm. apply lookup_insert_eq.
        -- rewrite Hh. destruct (Hws _ Hw0) as [fw Hfw]. exists fw.
           split; [done|]. unfold pattern_of. by rewrite Hfw.
      * by apply list_elem_of_fmap in Hin as (l0 & ? & _).
    + apply Hmute. unfold createClient_fulfilled. simpl. rewrite Hd.
      unfold fire_created. simpl.
      destruct (_onDidCreateClient s); [|by apply adds_only_same].
      eexists. split; [done|]. by apply Forall_fmap, Forall_forall.
  - apply Hmute. simpl. case_bool_decide; [|by apply adds_only_same].
    eapply adds_only_trans; [|apply mute_on_error]. by apply adds_only_same.
  - apply Hmute. simpl. unfold waitClient. case_match.
    + eexists. split; [done|]. by repeat constructor.
    + by apply adds_only_same.
  - (* a watcher is created *)
    destruct (createFileSystemWatcher_spec cfg s) as (Ht & _ & Hh & _).
    pose proof (fr_map _ _ (frame_createFileSystemWatcher cfg s)) as Hm.
    change (step (CreateFileSystemWatcher cfg) s)
      with (createFileSystemWatcher cfg s) in *.
    rewrite Ht in Hin. apply elem_of_app in Hin as [Hin|Hin]; [by apply Hold|].
    apply list_elem_of_fmap in Hin as (c0 & [= -> -> ->] & Hc0).
    split.
    + rewrite Hm. apply live_clients_stored in Hc0 as (r & _ & Hr).
      by exists r.
    + rewrite Hh. exists (new_FileSystemWatcher cfg). split; [|done].
      rewrite lookup_app_r, Nat.sub_diag by lia. done.
  - apply Hmute. simpl. case_bool_decide; [|by apply adds_only_same].
    unfold listen_subscribed. simpl. destruct (heap s !! w'); [|by apply adds_only_same].
    destruct (fw_disposed _); [|by apply adds_only_same].
    eexists. split; [done|]. by repeat constructor.
  - apply Hmute. simpl. case_bool_decide; [|by apply adds_only_same].
    eexists. split; [done|]. by repeat constructor.
  - apply Hmute. simpl. destruct (heap s !! w'); by apply adds_only_same.
  - apply Hmute. simpl. unfold watcher_dispose.
    destruct (heap s !! w'); [|by apply adds_only_same].
    eexists. split; [done|]. unfold disposeAll. by apply Forall_fmap, Forall_forall.
  - apply Hmute. eexists. split; [done|]. by apply Forall_fmap, Forall_forall.
Qed.

(** X18.  On every run of a manager, every subscription that was made
    went to a client that is stored in the map, and was made by an
    existing watcher with its own glob pattern: no watcher is ever
    subscribed to a client that was discarded. *)
Theorem subscriptions_go_to_stored_clients path ops c w g :
  ClientSubscribe c w g ∈ trace (run ops (init path)) →
  (∃ r, clientsMap (run ops (init path)) !! r = Some (Some c))
  ∧ (∃ fw, heap (run ops (init path)) !! w = Some fw
           ∧ globPattern (config fw) = g).
Proof.
  revert c w g.
  change (Subscriptions (run ops (init path))).
  assert (Inv (run ops (init path)) ∧ Registry (run ops (init path))
          ∧ Subscriptions (run ops (init path))) as (_ & _ & H); [|exact H].
  apply (preserved_foldl (fun s => Inv s ∧ Registry s ∧ Subscriptions s)).
  - intros s op (Hi & Hr & Hs). split_and!.
    + by apply Inv_step.
    + by apply Registry_step.
    + by apply Subscriptions_step.
  - split_and!; [apply Inv_init|apply Registry_init|].
    intros c w g Hin. by apply elem_of_nil in Hin.
Qed.

Lemma subscriptions_go_to_stored_clients_witness :
  ∃ r, clientsMap
         (run [Attach "out" ["/r"]; CreateFileSystemWatcher watch_all;
               ClientCreated "/r" (Some 1); Dispose]
            (init (Some "watchman"))) !! r = Some (Some 1).
Proof.
  apply (proj1 (subscriptions_go_to_stored_clients (Some "watchman")
                  [Attach "out" ["/r"]; CreateFileSystemWatcher watch_all;
                   ClientCreated "/r" (Some 1); Dispose] 1 0 "**"
                  ltac:(vm_compute; right; left))).
Defined.

(** *** Clients are released *)

Lemma trace_run_elem e ops s : e ∈ trace s → e ∈ trace (run ops s).
Proof.
  intros Hin. destruct (ev_trace _ _ (evolves_run ops s)) as (effs & -> & _).
  apply elem_of_app. by left.
Qed.

Lemma lookup_run ops s r v :
  Inv s → clientsMap s !! r = Some v → clientsMap (run ops s) !! r = Some v.
Proof.
  intros Hinv Hr.
  apply (preserved_foldl (fun s' => Inv s' ∧ clientsMap s' !! r = Some v));
    [|done].
  intros s' op [Hinv' Hr']. split; [by apply Inv_step|by apply lookup_step].
Qed.

(** X19.  No client is leaked: whatever happens after the factory
    delivered a client for a requested root, once the manager has been
    disposed that client has been disposed, either by [dispose()] through
    the map or at its arrival on a manager that was disposed already. *)
Theorem clients_are_released path ops0 r c ops1 :
  r ∈ pending (run ops0 (init path)) →
  ClientDispose c
  ∈ trace (step Dispose
             (run ops1 (step (ClientCreated r (Some c))
                          (run ops0 (init path))))).
Proof.
  set (s := run ops0 (init path)). intros Hp.
  assert (Inv s) as Hinv by apply Inv_run, Inv_init.
  set (s1 := step (ClientCreated r (Some c)) s).
  assert (Inv s1) as Hinv1 by by apply Inv_step.
  destruct (_disposed s) eqn:Hd.
  - destruct (trace_grows Dispose (run ops1 s1)) as (effs & ->).
    apply elem_of_app. left. apply trace_run_elem.
    unfold s1. simpl. rewrite (bool_decide_eq_true_2 _ Hp).
    unfold createClient_fulfilled. simpl. rewrite Hd. simpl.
    apply elem_of_app. right. by left.
  - assert (clientsMap s1 !! r = Some (Some c)) as Hr.
    { unfold s1. simpl. rewrite (bool_decide_eq_true_2 _ Hp).
      pose proof (core_createClient_fulfilled_live r (Some c)
                    (set_pending (remove_first r (pending s)) s) Hd) as Hc.
      unfold core in Hc. injection Hc as _ -> _ _. apply lookup_insert_eq. }
    apply (lookup_run ops1) in Hr; [|done].
    set (s2 := run ops1 s1) in *. simpl.
    apply elem_of_app. right. apply list_elem_of_fmap_2.
    apply live_clients_stored. exists r. split; [|done].
    assert (Keys s2) as [_ Hkeys]
      by apply Keys_run, Keys_step, Keys_run, Keys_init.
    apply Hkeys. by exists (Some c).
Qed.


(** *** Concrete runs of the properties above *)

Lemma requests_in_flight_are_unique_witness :
  NoDup (pending (run [Attach "out" ["/a"; "/b"; "/a"]] (init (Some "watchman")))).
Proof.
  apply (proj2 (requests_in_flight_are_unique (Some "watchman")
                  [Attach "out" ["/a"; "/b"; "/a"]])).
  reflexivity.
Defined.

Lemma subscriptions_are_released_witness :
  SubscriptionDispose 5
  ∈ trace (step (DisposeWatcher 0)
             (run [AddListener 0 OnCreate 7]
                (step (Subscribed 0 1 5)
                   (run [Attach "out" ["/r"]; ClientCreated "/r" (Some 1);
                         CreateFileSystemWatcher watch_all]
                      (init (Some "watchman")))))).
Proof.
  apply subscriptions_are_released.
  - vm_compute. left.
  - exists (new_FileSystemWatcher watch_all). vm_compute. reflexivity.
Defined.

Lemma new_client_reaches_every_watcher_witness :
  clientsMap
    (step (ClientCreated "/r" (Some 1))
       (run [CreateFileSystemWatcher watch_all; Attach "out" ["/r"]]
          (init (Some "watchman"))))
  = <[ "/r" := Some 1 ]>
      (clientsMap (run [CreateFileSystemWatcher watch_all; Attach "out" ["/r"]]
                     (init (Some "watchman")))).
Proof.
  destruct (new_client_reaches_every_watcher (Some "watchman")
              [CreateFileSystemWatcher watch_all; Attach "out" ["/r"]] "/r" 1)
    as (_ & Hmap & _).
  - vm_compute. left.
  - reflexivity.
  - exact Hmap.
Defined.

Lemma disposed_watcher_is_silent_except_delete_witness :
  ∃ uri, DidDelete "/r/a.txt" = DidDelete uri
         ∧ 7 ∈ emitter_listeners
                 (_onDidDelete
                    (fw_on OnDelete 9
                       (fw_dispose
                          (fw_on OnCreate 8
                             (fw_on OnDelete 7
                                (new_FileSystemWatcher watch_all)))))).
Proof.
  destruct (@disposed_watcher_is_silent_except_delete sample
              (run [CreateFileSystemWatcher watch_all;
                    AddListener 0 OnDelete 7; AddListener 0 OnCreate 8]
                 (init (Some "watchman")))
              0
              (fw_on OnCreate 8
                 (fw_on OnDelete 7 (new_FileSystemWatcher watch_all)))
              [Attach "out" ["/r"]; AddListener 0 OnDelete 9])
    as (_ & _ & Hsilent).
  - vm_compute. reflexivity.
  - reflexivity.
  - destruct (Hsilent
                (fw_on OnDelete 9
                   (fw_dispose
                      (fw_on OnCreate 8
                         (fw_on OnDelete 7
                            (new_FileSystemWatcher watch_all)))))
                lone_pair_batch 7 (DidDelete "/r/a.txt")) as [_ Hdel].
    + vm_compute. reflexivity.
    + apply Hdel. vm_compute. left.
Defined.

Lemma disposed_manager_is_frozen_witness :
  _disposed (run [Attach "out" ["/q"]; ClientCreated "/r" (Some 1)]
               (run [Attach "out" ["/r"]; Dispose] (init (Some "watchman"))))
  = true.
Proof.
  apply (proj1 (disposed_manager_is_frozen
                  (run [Attach "out" ["/r"]; Dispose] (init (Some "watchman")))
                  [Attach "out" ["/q"]; ClientCreated "/r" (Some 1)]
                  eq_refl)).
Defined.

Lemma stored_client_is_never_replaced_witness :
  clientsMap
    (run [ChangeWorkspaceFolders [] ["/r"]; ChangeWorkspaceFolders ["/r"] [];
          Dispose]
       (run [Attach "out" ["/r"]; ClientCreated "/r" (Some 1)]
          (init (Some "watchman"))))
  !! "/r" = Some (Some 1).
Proof.
  apply (stored_client_is_never_replaced (Some "watchman")
           [Attach "out" ["/r"]; ClientCreated "/r" (Some 1)]).
  vm_compute. reflexivity.
Defined.

Lemma attach_requests_each_folder_once_witness :
  factory_calls "/a" (attach "out" ["/a"; "/b"; "/a"] (init (Some "watchman")))
  = factory_calls "/a" (init (Some "watchman"))
    + (if bool_decide ("/a" ∈ ["/a"; "/b"; "/a"]
                       ∧ ("/a" ∉ creatingRoots (init (Some "watchman")))
                       ∧ (clientsMap (init (Some "watchman")) !! "/a") = None)
       then 1 else 0).
Proof.
  apply (attach_requests_each_folder_once "watchman" "out" ["/a"; "/b"; "/a"]
           (init (Some "watchman")) "/a").
  reflexivity.
Defined.

Lemma removing_clientless_folders_is_a_no_op_witness :
  step (ChangeWorkspaceFolders [] ["/x"; "/r"]) failed_world = failed_world.
Proof.
  apply removing_clientless_folders_is_a_no_op.
  repeat constructor.
Defined.

Lemma clients_are_released_witness :
  ClientDispose 1
  ∈ trace (step Dispose
             (run [ChangeWorkspaceFolders ["/q"] []]
                (step (ClientCreated "/r" (Some 1))
                   (run [Attach "out" ["/r"]] (init (Some "watchman")))))).
Proof.
  apply clients_are_released. vm_compute. left.
Defined.
